(** * OpenDeep: the RMSProp learning rule

    A shallow embedding of [opendeep/optimization/rmsprop.py].

    Modelling conventions.
    - Python floats and tensor elements are idealised as real numbers [R]:
      rounding, overflow and infinite or NaN inputs are outside the model.
    - [get_updates] builds a symbolic Theano graph; the graph is the inductive
      type [texpr], and its elementwise meaning is [eval], taken at one element
      position of the tensors involved. Where the program's value is not a
      number (the root of a negative element, a division by zero) [eval] still
      returns a real; [eval_num] is [None] there, and agrees with [eval]
      everywhere else.
    - Theano variables are compared by object identity; a shared variable
      carries the identity it was allocated with ([sh_id]), and allocation
      draws identities from a counter in [world].
    - Python dictionaries are association lists in iteration order; writing an
      existing key replaces the value in place, writing a new key appends. *)

From Stdlib Require Import List String Bool Arith ZArith Lia Reals Lra.
Import ListNotations.

Local Open Scope string_scope.
Local Open Scope list_scope.
Local Open Scope R_scope.

(* ------------------------------------------------------------------------- *)
(** ** Tensors, shared variables and symbolic expressions *)

(** A numpy array: its shape and its elements in row-major order. *)
Record ndarray : Type := mk_ndarray {
  shape : list nat;
  data  : list R
}.

(** [a * c] for an array [a] and a Python float [c]. *)
Definition ndarray_mul (a : ndarray) (c : R) : ndarray :=
  {| shape := shape a; data := map (fun x => x * c) (data a) |}.

(** A Theano shared variable: its identity, its [name] attribute and the value
    [get_value()] returns. *)
Record shared : Type := mk_shared {
  sh_id : nat;
  name  : option string;
  value : ndarray
}.

Definition get_value (v : shared) : ndarray := value v.

Definition set_name (v : shared) (n : string) : shared :=
  {| sh_id := sh_id v; name := Some n; value := value v |}.

(** Identity comparison, the hash/equality Theano variables use as dict keys. *)
Definition same_var (a b : shared) : bool := Nat.eqb (sh_id a) (sh_id b).

(** Symbolic tensor expressions, with the operators [get_updates] applies. *)
Inductive texpr : Type :=
| TConst (c : R)                 (* a Python float, broadcast *)
| TShared (v : shared)           (* a shared variable *)
| TSym (n : nat)                 (* any other symbolic input of the graph *)
| TAdd (a b : texpr)
| TMul (a b : texpr)
| TNeg (a : texpr)
| TDiv (a b : texpr)
| TSqr (a : texpr)               (* T.sqr *)
| TSqrt (a : texpr)              (* T.sqrt *)
| TMaximum (a b : texpr).        (* T.maximum *)

(** The value of an expression at one element position: [rho] gives the
    element of each shared variable (by identity), [sigma] that of each other
    input. *)
Fixpoint eval (rho sigma : nat -> R) (e : texpr) : R :=
  match e with
  | TConst c => c
  | TShared v => rho (sh_id v)
  | TSym n => sigma n
  | TAdd a b => eval rho sigma a + eval rho sigma b
  | TMul a b => eval rho sigma a * eval rho sigma b
  | TNeg a => - eval rho sigma a
  | TDiv a b => eval rho sigma a / eval rho sigma b
  | TSqr a => Rsqr (eval rho sigma a)
  | TSqrt a => sqrt (eval rho sigma a)
  | TMaximum a b => Rmax (eval rho sigma a) (eval rho sigma b)
  end.

(** The value of an expression where the program's value is a number, [None]
    where it is not: [T.sqrt] of a negative element is NaN, a division by zero
    is infinite or NaN, and every operator, [T.maximum] included, hands a
    missing value on. *)
Definition num1 (f : R -> R) (a : option R) : option R :=
  match a with Some x => Some (f x) | None => None end.

Definition num2 (f : R -> R -> R) (a b : option R) : option R :=
  match a, b with Some x, Some y => Some (f x y) | _, _ => None end.

Fixpoint eval_num (rho sigma : nat -> R) (e : texpr) : option R :=
  match e with
  | TConst c => Some c
  | TShared v => Some (rho (sh_id v))
  | TSym n => Some (sigma n)
  | TAdd a b => num2 Rplus (eval_num rho sigma a) (eval_num rho sigma b)
  | TMul a b => num2 Rmult (eval_num rho sigma a) (eval_num rho sigma b)
  | TNeg a => num1 Ropp (eval_num rho sigma a)
  | TDiv a b =>
      match eval_num rho sigma a, eval_num rho sigma b with
      | Some x, Some y => if Req_dec_T y 0 then None else Some (x / y)
      | _, _ => None
      end
  | TSqr a => num1 Rsqr (eval_num rho sigma a)
  | TSqrt a =>
      match eval_num rho sigma a with
      | Some x => if Rle_dec 0 x then Some (sqrt x) else None
      | None => None
      end
  | TMaximum a b => num2 Rmax (eval_num rho sigma a) (eval_num rho sigma b)
  end.

(* ------------------------------------------------------------------------- *)
(** ** Ordered dictionaries *)

Section ODict.
Context {K V : Type} (eqb : K -> K -> bool).

(** [d.get(k)] / [d[k]]: [None] stands for a missing key. *)
Fixpoint od_get (d : list (K * V)) (k : K) : option V :=
  match d with
  | [] => None
  | (k', v) :: r => if eqb k' k then Some v else od_get r k
  end.

(** [k in d]. *)
Definition od_mem (d : list (K * V)) (k : K) : bool :=
  match od_get d k with Some _ => true | None => false end.

(** [d[k] = v]: an existing key keeps its position (and its key object),
    a new key goes last. *)
Fixpoint od_set (d : list (K * V)) (k : K) (v : V) : list (K * V) :=
  match d with
  | [] => [(k, v)]
  | (k', v') :: r =>
      if eqb k' k then (k', v) :: r else (k', v') :: od_set r k v
  end.

(** The keys in iteration order. *)
Definition od_keys (d : list (K * V)) : list K := map fst d.
End ODict.

(** A gradient dictionary: model parameter (by identity) to gradient
    expression. *)
Definition gradients : Type := list (shared * texpr).

(** Well-formedness of a dictionary keyed by identity: no key occurs twice. *)
Definition distinct_keys {V : Type} (d : list (shared * V)) : Prop :=
  NoDup (map (fun kv => sh_id (fst kv)) d).

(* ------------------------------------------------------------------------- *)
(** ** The interpreter state around the optimizer *)

Inductive level : Type := DEBUG | WARNING.

(** What lies outside the optimizer object: the allocator of variable
    identities and the records sent to the module's logger. *)
Record world : Type := mk_world {
  next_id : nat;
  log     : list (level * string)
}.

Definition log_record (l : level) (msg : string) (w : world) : world :=
  {| next_id := next_id w; log := log w ++ [(l, msg)] |}.

(** Modelled from the spec: [opendeep.sharedX] is not among the sources; per the
    glossary a shared variable is a persistent tensor value, so [sharedX(v)]
    allocates a new, unnamed shared variable holding [v]. *)
Definition sharedX (v : ndarray) (w : world) : shared * world :=
  ({| sh_id := next_id w; name := None; value := v |},
   {| next_id := S (next_id w); log := log w |}).

Inductive exn : Type :=
| ValueError (msg : string)
| KeyError
| AssertionError (msg : string)
| TypeError (msg : string).

(** The attributes of an [RMSProp] instance that [get_updates] touches. *)
Record RMSProp : Type := mk_RMSProp {
  learning_rate     : texpr;
  lr_scalers        : list (shared * R);
  decay             : R;
  max_scaling       : R;
  epsilon           : R;
  mean_square_grads : list (string * shared)
}.

Definition set_mean_square_grads (s : RMSProp) (m : list (string * shared))
  : RMSProp :=
  {| learning_rate := learning_rate s;
     lr_scalers := lr_scalers s;
     decay := decay s;
     max_scaling := max_scaling s;
     epsilon := epsilon s;
     mean_square_grads := m |}.

(* ------------------------------------------------------------------------- *)
(** ** [RMSProp.__init__] *)

(** The Python values a caller hands to the constructor. *)
Inductive pyval : Type :=
| PyNone
| PyInt (n : Z)
| PyFloat (x : R)
| PyDict (d : list (string * R))     (* a dict from names to floats *)
| PyObject (id : nat).

Definition kwlist : Type := list (string * pyval).

(** The class attribute [_defaults]. *)
Definition _defaults : pyval :=
  PyDict [("decay", 95 / 100); ("max_scaling", 100000)].

(** The keyword parameters of [__init__] after [model] and [dataset], each with
    its default value, in the order of the [def]. *)
Definition init_signature : kwlist :=
  [("config", PyNone); ("defaults", _defaults);
   ("n_epoch", PyNone); ("batch_size", PyNone); ("minimum_batch_size", PyNone);
   ("save_frequency", PyNone); ("early_stop_threshold", PyNone);
   ("early_stop_length", PyNone);
   ("learning_rate", PyNone); ("lr_decay", PyNone); ("lr_factor", PyNone);
   ("decay", PyNone); ("max_scaling", PyNone)].

(** Binding of one parameter at a call: the supplied value, else the default. *)
Definition bind (supplied : kwlist) (param : string) (default : pyval) : pyval :=
  match od_get String.eqb supplied param with
  | Some v => v
  | None => default
  end.

(** The first supplied keyword that the signature does not have, if any. *)
Definition unexpected_keyword (supplied : kwlist) : option string :=
  find (fun k => negb (od_mem String.eqb init_signature k)) (od_keys supplied).

(** The local variables of [__init__] once the call is bound ([model] and
    [dataset] are passed by position). The signature has no [**kwargs]: a
    keyword it does not have is a [TypeError], raised before the body runs. *)
Definition init_locals (supplied : kwlist) : exn + kwlist :=
  match unexpected_keyword supplied with
  | Some k =>
      inl (TypeError
             ("__init__() got an unexpected keyword argument '" ++ k ++ "'")
             %string)
  | None =>
      inr (map (fun pd => (fst pd, bind supplied (fst pd) (snd pd)))
               init_signature)
  end.

(** Reading a local variable. *)
Definition local (locals : kwlist) (x : string) : pyval :=
  match od_get String.eqb locals x with
  | Some v => v
  | None => PyNone
  end.

(** A call of the base-class constructor: two positional arguments and the
    keyword arguments in the order they are written. *)
Record super_call : Type := mk_super_call {
  sc_model   : pyval;
  sc_dataset : pyval;
  sc_kwargs  : kwlist
}.

(** The [super(RMSProp, self).__init__(...)] call of lines 57-61, from the
    local variables [l]. *)
Definition RMSProp_super_call (model dataset : pyval) (l : kwlist)
  : super_call :=
  {| sc_model := model;
     sc_dataset := dataset;
     sc_kwargs :=
       [("config", local l "config"); ("defaults", local l "defaults");
        ("n_epoch", local l "n_epoch"); ("batch_size", local l "batch_size");
        ("minimum_batch_size", local l "minimum_batch_size");
        ("save_frequency", local l "save_frequency");
        ("early_stop_length", local l "early_stop_length");
        ("early_stop_threshold", local l "early_stop_threshold");
        ("learning_rate", local l "learning_rate");
        ("lr_decay", local l "lr_decay"); ("lr_factor", local l "lr_factor");
        ("decay", local l "decay"); ("max_scaling", local l "max_scaling")] |}.

(** The attributes the base class leaves on [self] that this file reads. *)
Record optimizer_attrs : Type := mk_optimizer_attrs {
  o_learning_rate : texpr;
  o_lr_scalers    : list (shared * R);
  o_decay         : R;
  o_max_scaling   : R
}.

Section Constructor.
(** [Optimizer.__init__] is not among the sources: it is a parameter, free to
    raise or to resolve the attributes in any way. *)
Variable Optimizer_init : super_call -> exn + optimizer_attrs.

Definition RMSProp_init (model dataset : pyval) (supplied : kwlist)
  : exn + RMSProp :=
  match init_locals supplied with
  | inl e => inl e
  | inr l =>
      match Optimizer_init (RMSProp_super_call model dataset l) with
      | inl e => inl e
      | inr a =>
          if Rlt_dec 0 (o_max_scaling a) then
            inr {| learning_rate := o_learning_rate a;
                   lr_scalers := o_lr_scalers a;
                   decay := o_decay a;
                   max_scaling := o_max_scaling a;
                   epsilon := 1 / o_max_scaling a;
                   mean_square_grads := [] |}
          else inl (AssertionError "Max_scaling needs to be > 0.")
      end
  end.
End Constructor.

(* ------------------------------------------------------------------------- *)
(** ** [RMSProp.get_updates] *)

(** The frame of a running [get_updates]: [self], the argument [grads], the
    local [updates], and the world outside. *)
Record frame : Type := mk_frame {
  self    : RMSProp;
  grads   : gradients;
  updates : list (shared * texpr);
  env     : world
}.

Inductive outcome : Type :=
| Normal (f : frame)
| Raised (e : exn) (f : frame).

Definition frame_of (o : outcome) : frame :=
  match o with Normal f => f | Raised _ f => f end.

(** [self.lr_scalers.get(param, 1.)]. *)
Definition lr_scaler (s : RMSProp) (param : shared) : R :=
  match od_get same_var (lr_scalers s) param with
  | Some c => c
  | None => 1
  end.

(** The expressions built in one pass of the loop body, under the names of the
    source; [g] is [grads[param]]. *)
Definition new_mean_squared_grad (s : RMSProp) (mean_square_grad : shared)
  (g : texpr) : texpr :=
  TAdd (TMul (TConst (decay s)) (TShared mean_square_grad))
       (TMul (TConst (1 - decay s)) (TSqr g)).

Definition scaled_lr (s : RMSProp) (param : shared) : texpr :=
  TMul (TConst (lr_scaler s param)) (learning_rate s).

Definition rms_grad_t (s : RMSProp) (mean_square_grad : shared) (g : texpr)
  : texpr :=
  TMaximum (TSqrt (new_mean_squared_grad s mean_square_grad g))
           (TConst (epsilon s)).

Definition delta_x_t (s : RMSProp) (param mean_square_grad : shared)
  (g : texpr) : texpr :=
  TDiv (TMul (TNeg (scaled_lr s param)) g) (rms_grad_t s mean_square_grad g).

Definition warning_text (n : string) : string :=
  ("Calling get_updates more than once on the gradients of `" ++ n ++
   "` may make monitored values incorrect.")%string.

(** One pass of the [for param in grads] body (lines 97-124). *)
Definition loop_body (param : shared) (f : frame) : outcome :=
  let (fresh, w1) := sharedX (ndarray_mul (get_value param) 0) (env f) in
  match name param with
  | None =>
      Raised (ValueError "Model parameters must be named.")
             {| self := self f; grads := grads f; updates := updates f;
                env := w1 |}
  | Some n =>
      let mean_square_grad := set_name fresh ("mean_square_grad_" ++ n)%string in
      let w2 :=
        if od_mem String.eqb (mean_square_grads (self f)) n
        then log_record WARNING (warning_text n) w1
        else w1 in
      let s :=
        set_mean_square_grads (self f)
          (od_set String.eqb (mean_square_grads (self f)) n mean_square_grad) in
      match od_get same_var (grads f) param with
      | None =>
          Raised KeyError
                 {| self := s; grads := grads f; updates := updates f;
                    env := w2 |}
      | Some g =>
          let u1 := od_set same_var (updates f) mean_square_grad
                      (new_mean_squared_grad s mean_square_grad g) in
          let u2 := od_set same_var u1 param
                      (TAdd (TShared param)
                            (delta_x_t s param mean_square_grad g)) in
          Normal {| self := s; grads := grads f; updates := u2; env := w2 |}
      end
  end.

(** The [for] loop: the keys in iteration order, stopping at the first
    exception. *)
Fixpoint for_each (keys : list shared) (f : frame) : outcome :=
  match keys with
  | [] => Normal f
  | param :: rest =>
      match loop_body param f with
      | Normal f' => for_each rest f'
      | Raised e f' => Raised e f'
      end
  end.

(** [self.get_updates(grads)], run in world [w]: the final frame holds the
    optimizer, the gradient dictionary and the world as the call leaves them;
    on [Normal] its [updates] is the value returned. *)
Definition enter (s : RMSProp) (gs : gradients) (w : world) : frame :=
  {| self := s; grads := gs; updates := [];
     env := log_record DEBUG "Setting up RMSProp for optimizer..." w |}.

Definition get_updates (s : RMSProp) (gs : gradients) (w : world) : outcome :=
  for_each (od_keys gs) (enter s gs w).

(** Parameters that were allocated before the call. *)
Definition allocated (gs : gradients) (n : nat) : Prop :=
  forall p g, In (p, g) gs -> (sh_id p < n)%nat.

Definition all_named (gs : gradients) : Prop :=
  forall p, In p (od_keys gs) -> name p <> None.

(** The accumulator the loop creates for [param] when the allocator stands at
    [n]: the statement's own description, compared with the code below. *)
Definition accumulator (n : nat) (param : shared) : shared :=
  {| sh_id := n;
     name := option_map (append "mean_square_grad_") (name param);
     value := ndarray_mul (get_value param) 0 |}.

(** The mapping as the documentation describes it: for each parameter in
    iteration order, its accumulator and then the parameter itself. *)
Fixpoint spec_updates (s : RMSProp) (n : nat) (gs : gradients)
  : list (shared * texpr) :=
  match gs with
  | [] => []
  | (p, g) :: rest =>
      (accumulator n p, new_mean_squared_grad s (accumulator n p) g)
      :: (p, TAdd (TShared p) (delta_x_t s p (accumulator n p) g))
      :: spec_updates s (S n) rest
  end.

(** One compiled training step seen from an accumulator [ms]: its next value is
    the meaning of the expression [updates] maps it to, with [ms] currently
    holding [v]. *)
Definition override (rho : nat -> R) (i : nat) (v : R) : nat -> R :=
  fun j => if Nat.eqb j i then v else rho j.

Definition accumulator_step (s : RMSProp) (ms : shared) (g : texpr)
  (v : R) (st : (nat -> R) * (nat -> R)) : R :=
  eval (override (fst st) (sh_id ms) v) (snd st) (new_mean_squared_grad s ms g).

(** The accumulator after a run of training steps, each with its own values of
    the other variables and inputs. *)
Definition accumulator_after (s : RMSProp) (ms : shared) (g : texpr)
  (v0 : R) (steps : list ((nat -> R) * (nat -> R))) : R :=
  fold_left (accumulator_step s ms g) steps v0.

(** Along a run of training steps started at [v], every squared gradient
    element fed to the accumulator is at most [B]. *)
Fixpoint squares_bounded (s : RMSProp) (ms : shared) (g : texpr) (B v : R)
  (steps : list ((nat -> R) * (nat -> R))) : Prop :=
  match steps with
  | [] => True
  | st :: rest =>
      Rsqr (eval (override (fst st) (sh_id ms) v) (snd st) g) <= B /\
      squares_bounded s ms g B (accumulator_step s ms g v st) rest
  end.

(** The attributes of the optimizer other than [mean_square_grads] agree. *)
Definition same_settings (a b : RMSProp) : Prop :=
  learning_rate a = learning_rate b /\
  lr_scalers a = lr_scalers b /\
  decay a = decay b /\
  max_scaling a = max_scaling b /\
  epsilon a = epsilon b.

(** [m] stores under [n] an accumulator named after [n] that was allocated
    at or after [lo]. *)
Definition holds_fresh (lo : nat) (m : list (string * shared)) (n : string)
  : Prop :=
  exists acc,
    od_get String.eqb m n = Some acc /\
    name acc = Some ("mean_square_grad_" ++ n)%string /\
    (lo <= sh_id acc)%nat.

(** The names of the parameters of a gradient dictionary, in iteration order
    (a parameter without a name contributes none). *)
Fixpoint names_of (gs : gradients) : list string :=
  match gs with
  | [] => []
  | (p, _) :: rest =>
      match name p with
      | Some n => n :: names_of rest
      | None => names_of rest
      end
  end.

(** The entries the loop stores when it meets the parameters of [gs] with the
    allocator at [n], up to the first unnamed one. *)
Fixpoint fresh_entries (n : nat) (gs : gradients) : list (string * shared) :=
  match gs with
  | [] => []
  | (p, _) :: rest =>
      match name p with
      | Some nm => (nm, accumulator n p) :: fresh_entries (S n) rest
      | None => []
      end
  end.

(** One warning record per named parameter, in iteration order. *)
Definition warnings_for (gs : gradients) : list (level * string) :=
  map (fun n => (WARNING, warning_text n)) (names_of gs).

(** Two frames that differ at most in [self.mean_square_grads] and in the
    log. *)
Definition agree (f f' : frame) : Prop :=
  same_settings (self f) (self f') /\
  grads f = grads f' /\
  updates f = updates f' /\
  next_id (env f) = next_id (env f').

(* ------------------------------------------------------------------------- *)
(** ** A small model to run the definitions on *)

Definition sample_W : shared :=
  {| sh_id := 0; name := Some "W";
     value := {| shape := [2%nat]; data := [1; -2] |} |}.

Definition sample_b : shared :=
  {| sh_id := 1; name := Some "b";
     value := {| shape := [1%nat]; data := [3] |} |}.

Definition sample_anon : shared :=
  {| sh_id := 2; name := None;
     value := {| shape := [1%nat]; data := [4] |} |}.

Definition sample_grads : gradients := [(sample_W, TSym 0); (sample_b, TSym 1)].

Definition sample_world : world := {| next_id := 3; log := [] |}.

Definition sample_attrs : optimizer_attrs :=
  {| o_learning_rate := TConst (1 / 1000);
     o_lr_scalers := [(sample_b, 2)];
     o_decay := 95 / 100;
     o_max_scaling := 100000 |}.

Definition sample_base (c : super_call) : exn + optimizer_attrs :=
  inr sample_attrs.

Definition sample_opt : RMSProp :=
  {| learning_rate := TConst (1 / 1000);
     lr_scalers := [(sample_b, 2)];
     decay := 95 / 100;
     max_scaling := 100000;
     epsilon := 1 / 100000;
     mean_square_grads := [] |}.

(** A base class that resolves [decay = 2], and the optimizer built on it. *)
Definition sample_base_steep (c : super_call) : exn + optimizer_attrs :=
  inr {| o_learning_rate := TConst (1 / 1000);
         o_lr_scalers := [];
         o_decay := 2;
         o_max_scaling := 100000 |}.

Definition sample_opt_steep : RMSProp :=
  {| learning_rate := TConst (1 / 1000);
     lr_scalers := [];
     decay := 2;
     max_scaling := 100000;
     epsilon := 1 / 100000;
     mean_square_grads := [] |}.

(** A base class that takes [decay] from its keyword alone and refuses
    anything but a float there. *)
Definition probe_decay (c : super_call) : exn + optimizer_attrs :=
  match od_get String.eqb (sc_kwargs c) "decay" with
  | Some (PyFloat x) =>
      inr {| o_learning_rate := TConst (1 / 1000);
             o_lr_scalers := [];
             o_decay := x;
             o_max_scaling := 100000 |}
  | _ => inl (TypeError "decay is not a float")
  end.

(** A second variable that bears the name of [sample_W]. *)
Definition sample_twin : shared :=
  {| sh_id := 2; name := Some "W";
     value := {| shape := [1%nat]; data := [5] |} |}.

(** The optimizer and the world as a first call on [sample_grads] leaves
    them. *)
Definition sample_opt_used : RMSProp :=
  set_mean_square_grads sample_opt
    [("W", accumulator 3 sample_W); ("b", accumulator 4 sample_b)].

Definition sample_world_used : world :=
  {| next_id := 5;
     log := [(DEBUG, "Setting up RMSProp for optimizer...")] |}.

(** An optimizer whose running averages never move. *)
Definition sample_opt_frozen : RMSProp :=
  {| learning_rate := TConst (1 / 1000);
     lr_scalers := [];
     decay := 1;
     max_scaling := 100000;
     epsilon := 1 / 100000;
     mean_square_grads := [] |}.

(* ------------------------------------------------------------------------- *)
(** ** Dictionary lemmas *)

Section ODictFacts.
Context {K V I : Type} (eqb : K -> K -> bool) (proj : K -> I).
Hypothesis eqb_proj : forall a b, eqb a b = true <-> proj a = proj b.

Lemma eqb_same : forall a, eqb a a = true.
Proof. intro a. apply eqb_proj. reflexivity. Qed.

Lemma od_get_set_same : forall (d : list (K * V)) k v,
  od_get eqb (od_set eqb d k v) k = Some v.
Proof.
  induction d as [|[k' v'] r IH]; intros k v; simpl.
  - now rewrite eqb_same.
  - destruct (eqb k' k) eqn:E; simpl; rewrite E; [reflexivity | apply IH].
Qed.

Lemma od_get_set_other : forall (d : list (K * V)) k v j,
  proj k <> proj j ->
  od_get eqb (od_set eqb d k v) j = od_get eqb d j.
Proof.
  induction d as [|[k' v'] r IH]; intros k v j Hne; simpl.
  - destruct (eqb k j) eqn:E; [apply eqb_proj in E; contradiction | reflexivity].
  - destruct (eqb k' k) eqn:E; simpl.
    + apply eqb_proj in E.
      destruct (eqb k' j) eqn:E'; [|reflexivity].
      apply eqb_proj in E'. congruence.
    + destruct (eqb k' j); [reflexivity | now apply IH].
Qed.

Lemma od_set_new : forall (d : list (K * V)) k v,
  ~ In (proj k) (map (fun kv => proj (fst kv)) d) ->
  od_set eqb d k v = d ++ [(k, v)].
Proof.
  induction d as [|[k' v'] r IH]; intros k v Hn; simpl; [reflexivity|].
  simpl in Hn.
  destruct (eqb k' k) eqn:E.
  - apply eqb_proj in E. tauto.
  - f_equal. apply IH. tauto.
Qed.

Lemma od_get_key : forall (d : list (K * V)) k,
  In k (od_keys d) -> exists v, od_get eqb d k = Some v.
Proof.
  induction d as [|[k' v'] r IH]; intros k Hin; simpl in *; [tauto|].
  destruct (eqb k' k) eqn:E; [eauto|].
  destruct Hin as [->|Hin]; [rewrite eqb_same in E; discriminate | auto].
Qed.

Lemma od_get_in : forall (d : list (K * V)) k v,
  NoDup (map (fun kv => proj (fst kv)) d) ->
  In (k, v) d -> od_get eqb d k = Some v.
Proof.
  induction d as [|[k' v'] r IH]; intros k v Hnd Hin; simpl in *; [tauto|].
  inversion Hnd as [|x l Hx Hnd']; subst.
  destruct Hin as [Heq|Hin].
  - inversion Heq; subst. now rewrite eqb_same.
  - destruct (eqb k' k) eqn:E; [|now apply IH].
    apply eqb_proj in E. exfalso. apply Hx. rewrite E.
    apply (in_map (fun kv => proj (fst kv)) r (k, v) Hin).
Qed.
End ODictFacts.

Lemma same_var_id : forall a b, same_var a b = true <-> sh_id a = sh_id b.
Proof. intros a b. unfold same_var. apply Nat.eqb_eq. Qed.

Lemma string_eqb_id : forall a b : string,
  String.eqb a b = true <-> (fun x : string => x) a = (fun x : string => x) b.
Proof. intros a b. apply String.eqb_eq. Qed.

(* ------------------------------------------------------------------------- *)
(** ** The loop of [get_updates] *)

Lemma for_each_app : forall a b f,
  for_each (a ++ b) f =
  match for_each a f with
  | Normal f' => for_each b f'
  | Raised e f' => Raised e f'
  end.
Proof.
  induction a as [|p a IH]; intros b f; simpl; [reflexivity|].
  destruct (loop_body p f); [apply IH | reflexivity].
Qed.

(** The body on a named parameter whose gradient is found. *)
Lemma loop_body_named : forall p f n g,
  name p = Some n ->
  od_get same_var (grads f) p = Some g ->
  let acc := accumulator (next_id (env f)) p in
  let w1 := {| next_id := S (next_id (env f)); log := log (env f) |} in
  loop_body p f =
  Normal
    {| self := set_mean_square_grads (self f)
                 (od_set String.eqb (mean_square_grads (self f)) n acc);
       grads := grads f;
       updates :=
         od_set same_var
           (od_set same_var (updates f) acc
              (new_mean_squared_grad (self f) acc g))
           p (TAdd (TShared p) (delta_x_t (self f) p acc g));
       env := if od_mem String.eqb (mean_square_grads (self f)) n
              then log_record WARNING (warning_text n) w1 else w1 |}.
Proof.
  intros p f n g Hn Hg. unfold loop_body, accumulator. simpl.
  rewrite Hn, Hg. reflexivity.
Qed.

(** The body on an unnamed parameter. *)
Lemma loop_body_unnamed : forall p f,
  name p = None ->
  loop_body p f =
  Raised (ValueError "Model parameters must be named.")
         {| self := self f; grads := grads f; updates := updates f;
            env := {| next_id := S (next_id (env f)); log := log (env f) |} |}.
Proof. intros p f Hn. unfold loop_body. simpl. rewrite Hn. reflexivity. Qed.

Lemma spec_updates_set_msg : forall gs s m n,
  spec_updates (set_mean_square_grads s m) n gs = spec_updates s n gs.
Proof.
  induction gs as [|[p g] gs IH]; intros s m n; simpl; [reflexivity|].
  rewrite IH. reflexivity.
Qed.

Lemma spec_updates_length : forall gs s n,
  List.length (spec_updates s n gs) = (2 * List.length gs)%nat.
Proof.
  induction gs as [|[p g] gs IH]; intros s n; simpl; [reflexivity|].
  rewrite IH. lia.
Qed.

Lemma next_id_after_body : forall (c : bool) l m w,
  next_id (if c then log_record l m w else w) = next_id w.
Proof. intros [] l m w; reflexivity. Qed.

(** On named, distinct, already allocated parameters the loop runs to its end
    and appends to [updates] exactly the entries of [spec_updates]. *)
Lemma for_each_spec : forall gs f,
  all_named gs ->
  (forall p g, In (p, g) gs -> od_get same_var (grads f) p = Some g) ->
  distinct_keys gs ->
  allocated gs (next_id (env f)) ->
  (forall k, In k (od_keys (updates f)) ->
     (sh_id k < next_id (env f))%nat /\
     ~ In (sh_id k) (map (fun kv => sh_id (fst kv)) gs)) ->
  exists f',
    for_each (od_keys gs) f = Normal f' /\
    updates f' = updates f ++ spec_updates (self f) (next_id (env f)) gs /\
    next_id (env f') = (next_id (env f) + List.length gs)%nat.
Proof.
  induction gs as [|[p g] gs IH]; intros f Hnm Hget Hnd Hal Hup.
  - exists f. simpl. rewrite app_nil_r, Nat.add_0_r. auto.
  - assert (Hp : exists n, name p = Some n).
    { destruct (name p) as [n|] eqn:E; [eauto|].
      exfalso. apply (Hnm p); [left; reflexivity | exact E]. }
    destruct Hp as [n Hn].
    assert (Hg : od_get same_var (grads f) p = Some g)
      by (apply Hget; left; reflexivity).
    assert (Hlt : (sh_id p < next_id (env f))%nat)
      by (apply (Hal p g); left; reflexivity).
    inversion Hnd as [|x l Hx Hnd']; subst.
    simpl. rewrite (loop_body_named p f n g Hn Hg). cbv zeta.
    set (acc := accumulator (next_id (env f)) p).
    assert (Hacc : ~ In (sh_id acc)
                     (map (fun kv => sh_id (fst kv)) (updates f))).
    { intro Hin. apply in_map_iff in Hin. destruct Hin as [[k e] [Hk Hin]].
      simpl in Hk.
      destruct (Hup k) as [Hlt' _].
      { apply in_map_iff. exists (k, e). auto. }
      simpl in Hlt'. rewrite Hk in Hlt'. simpl in Hlt'. lia. }
    rewrite (od_set_new same_var sh_id same_var_id (updates f) acc _ Hacc).
    assert (Hpn : ~ In (sh_id p)
                    (map (fun kv => sh_id (fst kv))
                       (updates f ++
                        [(acc, new_mean_squared_grad (self f) acc g)]))).
    { rewrite map_app, in_app_iff. simpl. intros [Hin|[Hin|[]]].
      - apply in_map_iff in Hin. destruct Hin as [[k e] [Hk Hin]].
        simpl in Hk.
        destruct (Hup k) as [_ Hno].
        { apply in_map_iff. exists (k, e). auto. }
        apply Hno. simpl. left. symmetry. exact Hk.
      - lia. }
    rewrite (od_set_new same_var sh_id same_var_id _ p _ Hpn).
    match goal with |- context [for_each _ ?F] => set (f1 := F) end.
    destruct (IH f1) as [f' [Hrun [Hupd Hnext]]].
    + intros q Hq. apply Hnm. right. exact Hq.
    + intros q e Hq. simpl. apply Hget. right. exact Hq.
    + exact Hnd'.
    + intros q e Hq. simpl. rewrite next_id_after_body. simpl.
      assert ((sh_id q < next_id (env f))%nat)
        by (apply (Hal q e); right; exact Hq).
      lia.
    + intros k Hk. simpl in Hk. simpl. rewrite next_id_after_body. simpl.
      unfold od_keys in Hk. rewrite !map_app, !in_app_iff in Hk. simpl in Hk.
      destruct Hk as [[Hk|[Hk|[]]]|[Hk|[]]].
      * destruct (Hup k Hk) as [Hlt' Hno]. split; [lia|].
        intro Hin. apply Hno. simpl. right. exact Hin.
      * subst k. simpl. split; [lia|].
        intro Hin. apply in_map_iff in Hin. destruct Hin as [[q e] [Hq Hin]].
        simpl in Hq.
        assert ((sh_id q < next_id (env f))%nat)
          by (apply (Hal q e); right; exact Hin).
        lia.
      * subst k. split; [lia | exact Hx].
    + exists f'. split; [exact Hrun|]. split.
      * rewrite Hupd. simpl. rewrite spec_updates_set_msg.
        rewrite next_id_after_body. simpl.
        rewrite <- !app_assoc. reflexivity.
      * rewrite Hnext. simpl. rewrite next_id_after_body. simpl. lia.
Qed.

Lemma same_var_ne : forall a b, sh_id a <> sh_id b -> same_var a b = false.
Proof. intros a b H. unfold same_var. now apply Nat.eqb_neq. Qed.

Lemma same_var_refl : forall a, same_var a a = true.
Proof. intro a. unfold same_var. apply Nat.eqb_refl. Qed.

(** Reading [spec_updates] back: the parameter at position [i] and the
    accumulator created for it. *)
Lemma spec_updates_lookup : forall gs s n i p g,
  distinct_keys gs ->
  allocated gs n ->
  nth_error gs i = Some (p, g) ->
  let acc := accumulator (n + i) p in
  od_get same_var (spec_updates s n gs) p
    = Some (TAdd (TShared p) (delta_x_t s p acc g)) /\
  od_get same_var (spec_updates s n gs) acc
    = Some (new_mean_squared_grad s acc g).
Proof.
  induction gs as [|[p0 g0] gs IH]; intros s n i p g Hnd Hal Hnth acc.
  - destruct i; discriminate.
  - inversion Hnd as [|x l Hx Hnd']; subst.
    assert (H0 : (sh_id p0 < n)%nat) by (apply (Hal p0 g0); left; reflexivity).
    destruct i as [|i]; simpl in Hnth.
    + inversion Hnth; subst p0 g0. subst acc. rewrite Nat.add_0_r.
      cbn [spec_updates od_get].
      rewrite (same_var_ne (accumulator n p) p) by (simpl; lia).
      rewrite !same_var_refl. auto.
    + assert (Hin : In (p, g) gs) by (eapply nth_error_In; eauto).
      assert (Hp : (sh_id p < n)%nat) by (apply (Hal p g); right; exact Hin).
      assert (Hne : sh_id p0 <> sh_id p).
      { intro E. apply Hx. simpl. rewrite E.
        apply (in_map (fun kv => sh_id (fst kv)) gs (p, g) Hin). }
      destruct (IH s (S n) i p g Hnd') as [IH1 IH2]; [|exact Hnth|].
      { intros q e Hq.
        assert ((sh_id q < n)%nat) by (apply (Hal q e); right; exact Hq).
        lia. }
      replace (S n + i)%nat with (n + S i)%nat in IH1, IH2 by lia.
      fold acc in IH1, IH2.
      cbn [spec_updates od_get].
      rewrite (same_var_ne (accumulator n p0) p) by (simpl; lia).
      rewrite (same_var_ne p0 p) by exact Hne.
      rewrite (same_var_ne (accumulator n p0) acc) by (simpl; lia).
      rewrite (same_var_ne p0 acc) by (simpl; lia).
      auto.
Qed.

(** On a well-formed gradient dictionary of named parameters, [get_updates]
    returns [spec_updates]. *)
Lemma get_updates_spec : forall s gs w,
  all_named gs -> distinct_keys gs -> allocated gs (next_id w) ->
  exists f,
    get_updates s gs w = Normal f /\
    updates f = spec_updates s (next_id w) gs.
Proof.
  intros s gs w Hnm Hnd Hal. unfold get_updates.
  destruct (for_each_spec gs (enter s gs w)) as [f [Hrun [Hupd _]]]; auto.
  - intros p g Hin. simpl.
    apply (od_get_in same_var sh_id same_var_id gs p g Hnd Hin).
  - intros k [].
  - exists f. split; [exact Hrun|]. rewrite Hupd. reflexivity.
Qed.

Lemma spec_updates_nth : forall gs s n i p g,
  nth_error gs i = Some (p, g) ->
  let acc := accumulator (n + i) p in
  nth_error (spec_updates s n gs) (2 * i)
    = Some (acc, new_mean_squared_grad s acc g) /\
  nth_error (spec_updates s n gs) (S (2 * i))
    = Some (p, TAdd (TShared p) (delta_x_t s p acc g)).
Proof.
  induction gs as [|[p0 g0] gs IH]; intros s n i p g Hnth acc.
  - destruct i; discriminate.
  - destruct i as [|i]; simpl in Hnth.
    + inversion Hnth; subst p0 g0. subst acc. rewrite Nat.add_0_r.
      simpl. auto.
    + destruct (IH s (S n) i p g Hnth) as [IH1 IH2].
      replace (S n + i)%nat with (n + S i)%nat in IH1, IH2 by lia.
      replace (2 * S i)%nat with (S (S (2 * i))) by lia.
      simpl nth_error at 1 2. auto.
Qed.

(* ------------------------------------------------------------------------- *)
(** ** The update rule *)


(** C2. For every parameter of the gradient dictionary, [get_updates] maps the
    parameter's accumulator variable to
    [decay * ms + (1 - decay) * grads[p]^2]. *)
Theorem C2_accumulator_update : forall s gs w,
  all_named gs -> distinct_keys gs -> allocated gs (next_id w) ->
  exists f,
    get_updates s gs w = Normal f /\
    forall i p g, nth_error gs i = Some (p, g) ->
      let ms := accumulator (next_id w + i) p in
      let next_value :=
        TAdd (TMul (TConst (decay s)) (TShared ms))
             (TMul (TConst (1 - decay s)) (TSqr g)) in
      od_get same_var (updates f) ms = Some next_value /\
      forall rho sigma,
        eval rho sigma next_value =
        decay s * rho (sh_id ms) + (1 - decay s) * Rsqr (eval rho sigma g).
Proof.
  intros s gs w Hnm Hnd Hal.
  destruct (get_updates_spec s gs w Hnm Hnd Hal) as [f [Hrun Hupd]].
  exists f. split; [exact Hrun|].
  intros i p g Hnth ms next_value. split.
  - rewrite Hupd.
    apply (spec_updates_lookup gs s (next_id w) i p g Hnd Hal Hnth).
  - intros rho sigma. reflexivity.
Qed.

(** C4. For a gradient dictionary with [n] named parameters, [get_updates]
    returns a mapping of exactly [2 n] entries: entry [2 i] is the accumulator
    of the [i]-th parameter mapped to the new running average
    [decay * ms + (1 - decay) * g^2], entry [2 i + 1] the [i]-th parameter
    mapped to its updated value [p + delta]; the whole is [spec_updates]. *)
Theorem C4_updates_layout : forall s gs w,
  all_named gs -> distinct_keys gs -> allocated gs (next_id w) ->
  exists f,
    get_updates s gs w = Normal f /\
    updates f = spec_updates s (next_id w) gs /\
    List.length (updates f) = (2 * List.length gs)%nat /\
    forall i p g, nth_error gs i = Some (p, g) ->
      let ms := accumulator (next_id w + i) p in
      let running_average :=
        TAdd (TMul (TConst (decay s)) (TShared ms))
             (TMul (TConst (1 - decay s)) (TSqr g)) in
      nth_error (updates f) (2 * i) = Some (ms, running_average) /\
      nth_error (updates f) (S (2 * i))
        = Some (p,
                TAdd (TShared p)
                  (TDiv (TMul (TNeg (TMul (TConst (lr_scaler s p))
                                          (learning_rate s)))
                              g)
                        (TMaximum (TSqrt running_average)
                                  (TConst (epsilon s))))).
Proof.
  intros s gs w Hnm Hnd Hal.
  destruct (get_updates_spec s gs w Hnm Hnd Hal) as [f [Hrun Hupd]].
  exists f. split; [exact Hrun|]. split; [exact Hupd|]. split.
  - rewrite Hupd. apply spec_updates_length.
  - intros i p g Hnth ms running_average. rewrite Hupd.
    apply (spec_updates_nth gs s (next_id w) i p g Hnth).
Qed.

(* ------------------------------------------------------------------------- *)
(** ** Exceptions and side effects *)

Lemma loop_body_frame : forall p f,
  same_settings (self (frame_of (loop_body p f))) (self f) /\
  grads (frame_of (loop_body p f)) = grads f.
Proof.
  intros p f. unfold loop_body, same_settings. simpl.
  destruct (name p); [destruct (od_get same_var (grads f) p)|];
    simpl; repeat split; reflexivity.
Qed.

Lemma for_each_frame : forall keys f,
  same_settings (self (frame_of (for_each keys f))) (self f) /\
  grads (frame_of (for_each keys f)) = grads f.
Proof.
  induction keys as [|p keys IH]; intro f; simpl.
  - unfold same_settings. repeat split; reflexivity.
  - pose proof (loop_body_frame p f) as Hb.
    destruct (loop_body p f) as [f1|e f1]; simpl in Hb; [|exact Hb].
    destruct (IH f1) as [Hs Hg]. destruct Hb as [Hs1 Hg1].
    split; [|congruence].
    unfold same_settings in *. intuition congruence.
Qed.

Lemma loop_body_normal_inv : forall p f f1,
  loop_body p f = Normal f1 ->
  exists n g,
    name p = Some n /\ od_get same_var (grads f) p = Some g.
Proof.
  intros p f f1. unfold loop_body. simpl.
  destruct (name p) as [n|]; [|discriminate].
  destruct (od_get same_var (grads f) p) as [g|]; [|discriminate].
  eauto.
Qed.

(** The loop raises only [ValueError], and only at an unnamed parameter. *)
Lemma for_each_outcome : forall keys f,
  (forall p, In p keys -> exists g, od_get same_var (grads f) p = Some g) ->
  match for_each keys f with
  | Normal _ => forall p, In p keys -> name p <> None
  | Raised e _ =>
      e = ValueError "Model parameters must be named." /\
      exists p, In p keys /\ name p = None
  end.
Proof.
  induction keys as [|p keys IH]; intros f Hget; simpl.
  - intros p [].
  - destruct (name p) as [n|] eqn:Hn.
    + destruct (Hget p (or_introl eq_refl)) as [g Hg].
      rewrite (loop_body_named p f n g Hn Hg). cbv zeta.
      match goal with |- context [for_each _ ?F] => set (f1 := F) end.
      specialize (IH f1).
      destruct (for_each keys f1) as [f'|e f'].
      * intros q [<-|Hq]; [congruence|].
        apply IH; [|exact Hq]. intros r Hr. simpl. apply Hget. now right.
      * destruct IH as [He [q [Hq Hqn]]].
        { intros r Hr. simpl. apply Hget. now right. }
        split; [exact He|]. exists q. split; [now right | exact Hqn].
    + rewrite (loop_body_unnamed p f Hn). split; [reflexivity|].
      exists p. split; [now left | exact Hn].
Qed.

Lemma for_each_next_id : forall keys f f',
  for_each keys f = Normal f' ->
  next_id (env f') = (next_id (env f) + List.length keys)%nat.
Proof.
  induction keys as [|p keys IH]; intros f f' Hrun; simpl in Hrun.
  - inversion Hrun; subst. simpl. lia.
  - destruct (loop_body p f) as [f1|e f1] eqn:Hb; [|discriminate].
    destruct (loop_body_normal_inv p f f1 Hb) as [n [g [Hn Hg]]].
    rewrite (loop_body_named p f n g Hn Hg) in Hb. cbv zeta in Hb.
    inversion Hb; subst f1; clear Hb.
    rewrite (IH _ _ Hrun). simpl. rewrite next_id_after_body. simpl. lia.
Qed.

(** Every name met by the loop ends up holding an accumulator of this call. *)
Lemma for_each_stores : forall keys f f' lo n,
  for_each keys f = Normal f' ->
  (lo <= next_id (env f))%nat ->
  holds_fresh lo (mean_square_grads (self f)) n \/
    (exists q, In q keys /\ name q = Some n) ->
  holds_fresh lo (mean_square_grads (self f')) n.
Proof.
  induction keys as [|p keys IH]; intros f f' lo n Hrun Hlo Hn; simpl in Hrun.
  - inversion Hrun; subst. destruct Hn as [H|[q [[] _]]]. exact H.
  - destruct (loop_body p f) as [f1|e f1] eqn:Hb; [|discriminate].
    destruct (loop_body_normal_inv p f f1 Hb) as [m [g [Hm Hg]]].
    rewrite (loop_body_named p f m g Hm Hg) in Hb. cbv zeta in Hb.
    inversion Hb; subst f1; clear Hb.
    apply (IH _ _ lo n Hrun).
    + simpl. rewrite next_id_after_body. simpl. lia.
    + simpl. destruct (String.eqb m n) eqn:E.
      * apply String.eqb_eq in E. subst m. left.
        exists (accumulator (next_id (env f)) p). split; [|split].
        -- apply (od_get_set_same String.eqb (fun x => x) string_eqb_id).
        -- simpl. rewrite Hm. reflexivity.
        -- simpl. exact Hlo.
      * apply String.eqb_neq in E.
        destruct Hn as [[acc [Ha Hb]]|[q [[<-|Hq] Hqn]]].
        -- left. exists acc. split; [|exact Hb].
           rewrite (od_get_set_other String.eqb (fun x => x) string_eqb_id)
             by exact E.
           exact Ha.
        -- congruence.
        -- right. exists q. auto.
Qed.

(** The state in which the loop reaches a parameter preceded by named ones. *)
Lemma loop_reaches : forall s w pre p g post,
  all_named pre ->
  exists f1,
    for_each (od_keys pre) (enter s (pre ++ (p, g) :: post) w) = Normal f1 /\
    get_updates s (pre ++ (p, g) :: post) w
      = for_each (p :: od_keys post) f1 /\
    grads f1 = pre ++ (p, g) :: post /\
    next_id (env f1) = (next_id w + List.length pre)%nat.
Proof.
  intros s w pre p g post Hnm.
  set (gs := pre ++ (p, g) :: post).
  assert (Hkeys : od_keys gs = od_keys pre ++ p :: od_keys post).
  { unfold gs, od_keys. rewrite map_app. reflexivity. }
  pose proof (for_each_outcome (od_keys pre) (enter s gs w)) as Hout.
  pose proof (for_each_frame (od_keys pre) (enter s gs w)) as [_ Hgr].
  destruct (for_each (od_keys pre) (enter s gs w)) as [f1|e f1] eqn:Hrun.
  - exists f1. split; [reflexivity|]. split; [|split].
    + unfold get_updates. rewrite Hkeys, for_each_app, Hrun. reflexivity.
    + exact Hgr.
    + rewrite (for_each_next_id _ _ _ Hrun). simpl.
      unfold od_keys. rewrite length_map. reflexivity.
  - exfalso. destruct Hout as [_ [q [Hq Hqn]]].
    + intros q Hq. simpl.
      apply (od_get_key same_var sh_id same_var_id).
      rewrite Hkeys. apply in_or_app. now left.
    + exact (Hnm q Hq Hqn).
Qed.

(** C5. [get_updates] raises [ValueError] exactly when some parameter of the
    gradient dictionary has no name, raises nothing else, and returns normally
    when every parameter is named. When the first unnamed parameter is preceded
    by named ones, the exception leaves in [self.mean_square_grads] an
    accumulator of this call for each of their names. *)
Theorem C5_unnamed_parameter : forall s gs w,
  ((exists f, get_updates s gs w
              = Raised (ValueError "Model parameters must be named.") f)
   <-> exists p, In p (od_keys gs) /\ name p = None) /\
  (forall e f, get_updates s gs w = Raised e f ->
     e = ValueError "Model parameters must be named.") /\
  (all_named gs -> exists f, get_updates s gs w = Normal f) /\
  (forall pre p g post,
     gs = pre ++ (p, g) :: post -> all_named pre -> name p = None ->
     exists f,
       get_updates s gs w
       = Raised (ValueError "Model parameters must be named.") f /\
       forall q n, In q (od_keys pre) -> name q = Some n ->
         holds_fresh (next_id w) (mean_square_grads (self f)) n).
Proof.
  intros s gs w.
  assert (Hout := for_each_outcome (od_keys gs) (enter s gs w)
                    (fun p Hp => od_get_key same_var sh_id same_var_id gs p Hp)).
  fold (get_updates s gs w) in Hout.
  split; [|split; [|split]].
  - split.
    + intros [f Hf]. rewrite Hf in Hout. apply Hout.
    + intros [p [Hp Hpn]].
      destruct (get_updates s gs w) as [f|e f].
      * exfalso. exact (Hout p Hp Hpn).
      * destruct Hout as [-> _]. eauto.
  - intros e f Hf. rewrite Hf in Hout. apply Hout.
  - intros Hnm. destruct (get_updates s gs w) as [f|e f]; [eauto|].
    destruct Hout as [_ [p [Hp Hpn]]]. exfalso. exact (Hnm p Hp Hpn).
  - intros pre p g post -> Hnm Hpn.
    destruct (loop_reaches s w pre p g post Hnm) as [f1 [Hrun [Hgu _]]].
    rewrite Hgu. simpl. rewrite (loop_body_unnamed p f1 Hpn).
    eexists. split; [reflexivity|]. simpl.
    intros q n Hq Hqn.
    apply (for_each_stores _ _ _ (next_id w) n Hrun).
    + simpl. lia.
    + right. eauto.
Qed.

(** C9. Whatever its outcome, [get_updates] leaves [learning_rate], [decay],
    [epsilon], [max_scaling] and [lr_scalers] of the optimizer as they were,
    and the gradient dictionary it was given as it was. *)
Theorem C9_frame : forall s gs w,
  let f := frame_of (get_updates s gs w) in
  learning_rate (self f) = learning_rate s /\
  decay (self f) = decay s /\
  epsilon (self f) = epsilon s /\
  max_scaling (self f) = max_scaling s /\
  lr_scalers (self f) = lr_scalers s /\
  grads f = gs.
Proof.
  intros s gs w f. subst f. unfold get_updates.
  destruct (for_each_frame (od_keys gs) (enter s gs w)) as [Hs Hg].
  unfold same_settings in Hs. simpl in Hs, Hg. tauto.
Qed.

Lemma zeros_data : forall l : list R,
  Forall (fun x => x = 0) (map (fun x => x * 0) l).
Proof.
  induction l as [|x l IH]; simpl; constructor; [lra | exact IH].
Qed.

(** Writing a key that is present keeps every key in its place. *)
Lemma od_set_present_keys : forall (d : list (string * shared)) k v,
  od_mem String.eqb d k = true ->
  map fst (od_set String.eqb d k v) = map fst d.
Proof.
  induction d as [|[k' v'] r IH]; intros k v; unfold od_mem; simpl.
  - discriminate.
  - destruct (String.eqb k' k) eqn:E; simpl; [reflexivity|].
    intro H. f_equal. apply IH. exact H.
Qed.




(* ------------------------------------------------------------------------- *)
(** ** Numeric bounds *)

Lemma eval_rms_grad_t : forall s ms g rho sigma,
  eval rho sigma (rms_grad_t s ms g)
  = Rmax (sqrt (eval rho sigma (new_mean_squared_grad s ms g))) (epsilon s).
Proof. reflexivity. Qed.

Lemma inverse_bound : forall m d, 0 < m -> 1 / m <= d -> 1 / d <= m.
Proof.
  intros m d Hm Hd.
  assert (He : 0 < 1 / m) by (apply Rdiv_lt_0_compat; lra).
  assert (H : / d <= / (1 / m)) by (apply Rinv_le_contravar; assumption).
  replace (/ (1 / m)) with m in H by (field; lra).
  lra.
Qed.

(** What the constructor guarantees of the optimizer it returns. *)
Lemma constructed : forall base model dataset supplied s,
  RMSProp_init base model dataset supplied = inr s ->
  0 < max_scaling s /\ epsilon s = 1 / max_scaling s /\ 0 < epsilon s.
Proof.
  intros base model dataset supplied s Hinit. unfold RMSProp_init in Hinit.
  destruct (init_locals supplied) as [e|l]; [discriminate|].
  destruct (base (RMSProp_super_call model dataset l)) as [e|a];
    [discriminate|].
  destruct (Rlt_dec 0 (o_max_scaling a)) as [Hpos|]; [|discriminate].
  inversion Hinit; subst s; simpl.
  repeat split; try assumption. apply Rdiv_lt_0_compat; lra.
Qed.

(** Where [eval_num] has a value, [eval] has the same. *)
Lemma eval_num_agrees : forall rho sigma e v,
  eval_num rho sigma e = Some v -> eval rho sigma e = v.
Proof.
  intros rho sigma e.
  induction e as [c|u|n|a IHa b IHb|a IHa b IHb|a IHa|a IHa b IHb
                  |a IHa|a IHa|a IHa b IHb];
    intros v H; simpl in H |- *;
    try (inversion H; reflexivity);
    try (destruct (eval_num rho sigma a) as [x|]; [|discriminate];
         rewrite (IHa x eq_refl));
    try (destruct (eval_num rho sigma b) as [y|]; [|discriminate];
         rewrite (IHb y eq_refl));
    simpl in H.
  - inversion H; reflexivity.
  - inversion H; reflexivity.
  - inversion H; reflexivity.
  - destruct (Req_dec_T y 0); [discriminate|]. inversion H; reflexivity.
  - inversion H; reflexivity.
  - destruct (Rle_dec 0 x); [|discriminate]. inversion H; reflexivity.
  - inversion H; reflexivity.
Qed.

(** The denominator is a number when the gradient is and the radicand is not
    negative. *)
Lemma eval_num_rms_grad_t : forall s ms g rho sigma x,
  eval_num rho sigma g = Some x ->
  0 <= decay s * rho (sh_id ms) + (1 - decay s) * Rsqr x ->
  eval_num rho sigma (rms_grad_t s ms g)
  = Some (Rmax (sqrt (decay s * rho (sh_id ms) + (1 - decay s) * Rsqr x))
               (epsilon s)).
Proof.
  intros s ms g rho sigma x Hg Hrad.
  unfold rms_grad_t, new_mean_squared_grad. simpl. rewrite Hg. simpl.
  destruct (Rle_dec 0 (decay s * rho (sh_id ms) + (1 - decay s) * Rsqr x));
    [reflexivity | contradiction].
Qed.

(** It is not a number when the radicand is negative. *)
Lemma eval_num_rms_grad_t_negative : forall s ms g rho sigma x,
  eval_num rho sigma g = Some x ->
  decay s * rho (sh_id ms) + (1 - decay s) * Rsqr x < 0 ->
  eval_num rho sigma (rms_grad_t s ms g) = None.
Proof.
  intros s ms g rho sigma x Hg Hrad.
  unfold rms_grad_t, new_mean_squared_grad. simpl. rewrite Hg. simpl.
  destruct (Rle_dec 0 (decay s * rho (sh_id ms) + (1 - decay s) * Rsqr x));
    [lra | reflexivity].
Qed.

Lemma radicand_nonneg : forall d m x,
  0 <= d <= 1 -> 0 <= m -> 0 <= d * m + (1 - d) * Rsqr x.
Proof.
  intros d m x [Hd0 Hd1] Hm. pose proof (Rle_0_sqr x).
  apply Rplus_le_le_0_compat; apply Rmult_le_pos; lra.
Qed.

(** C3, as the code has it. For an optimizer the constructor returned
    ([max_scaling > 0], so [epsilon = 1 / max_scaling > 0]) with [decay] in
    [[0, 1]]: every parameter of a well-formed dictionary of named parameters
    is mapped to [p + num / den], and where the accumulator element is not
    negative and the gradient element is a number, [den] is the number
    [max(sqrt(decay * ms + (1 - decay) * g^2), epsilon)], at least [epsilon],
    not zero, with [1 / den <= max_scaling]. *)
Theorem C3_denominator_bound : forall base model dataset supplied s gs w,
  RMSProp_init base model dataset supplied = inr s ->
  0 <= decay s <= 1 ->
  all_named gs -> distinct_keys gs -> allocated gs (next_id w) ->
  0 < max_scaling s /\
  epsilon s = 1 / max_scaling s /\
  0 < epsilon s /\
  exists f,
    get_updates s gs w = Normal f /\
    forall i p g, nth_error gs i = Some (p, g) ->
      exists num den,
        od_get same_var (updates f) p
        = Some (TAdd (TShared p) (TDiv num den)) /\
        forall rho sigma x,
          0 <= rho (sh_id (accumulator (next_id w + i) p)) ->
          eval_num rho sigma g = Some x ->
          exists d,
            eval_num rho sigma den = Some d /\
            d = Rmax (sqrt (decay s
                            * rho (sh_id (accumulator (next_id w + i) p))
                            + (1 - decay s) * Rsqr x))
                     (epsilon s) /\
            epsilon s <= d /\
            d <> 0 /\
            1 / d <= max_scaling s.
Proof.
  intros base model dataset supplied s gs w Hinit Hdec Hnm Hnd Hal.
  destruct (constructed _ _ _ _ _ Hinit) as [Hm [He Hep]].
  split; [exact Hm|]. split; [exact He|]. split; [exact Hep|].
  destruct (get_updates_spec s gs w Hnm Hnd Hal) as [f [Hrun Hupd]].
  exists f. split; [exact Hrun|].
  intros i p g Hnth.
  destruct (spec_updates_lookup gs s (next_id w) i p g Hnd Hal Hnth)
    as [Hp _].
  set (acc := accumulator (next_id w + i) p) in *.
  exists (TMul (TNeg (scaled_lr s p)) g), (rms_grad_t s acc g).
  split; [rewrite Hupd; exact Hp|].
  intros rho sigma x Hms Hg.
  eexists. split.
  - apply eval_num_rms_grad_t; [exact Hg|].
    apply radicand_nonneg; assumption.
  - split; [reflexivity|].
    match goal with |- _ <= Rmax ?a ?b /\ _ => pose proof (Rmax_r a b) as Hr end.
    split; [exact Hr|]. split; [lra|].
    apply inverse_bound; [exact Hm|]. rewrite <- He. exact Hr.
Qed.

Lemma override_same : forall rho i v, override rho i v i = v.
Proof. intros rho i v. unfold override. now rewrite Nat.eqb_refl. Qed.

Lemma new_mean_squared_grad_nonneg : forall s ms g rho sigma,
  0 <= decay s <= 1 ->
  0 <= rho (sh_id ms) ->
  0 <= eval rho sigma (new_mean_squared_grad s ms g).
Proof.
  intros s ms g rho sigma [Hd0 Hd1] Hms. simpl.
  pose proof (Rle_0_sqr (eval rho sigma g)) as Hsq.
  apply Rplus_le_le_0_compat; apply Rmult_le_pos; lra.
Qed.

Lemma accumulator_after_nonneg : forall s ms g steps v0,
  0 <= decay s <= 1 -> 0 <= v0 ->
  0 <= accumulator_after s ms g v0 steps.
Proof.
  intros s ms g steps. unfold accumulator_after.
  induction steps as [|st steps IH]; intros v0 Hd Hv; simpl; [exact Hv|].
  apply IH; [exact Hd|].
  unfold accumulator_step.
  apply new_mean_squared_grad_nonneg; [exact Hd|].
  rewrite override_same. exact Hv.
Qed.

(** C6. For [decay] in [[0, 1]], a nonnegative accumulator element gives a
    nonnegative new value [decay * ms + (1 - decay) * g^2], so the accumulator
    stays nonnegative through any run of training steps from a nonnegative
    start; the zero initialization is such a start, and the argument of the
    [sqrt] in the parameter update is this new value. *)
Theorem C6_accumulator_nonnegative : forall s ms g v0 steps,
  0 <= decay s <= 1 ->
  0 <= v0 ->
  (forall rho sigma,
     0 <= rho (sh_id ms) ->
     eval rho sigma (new_mean_squared_grad s ms g)
       = decay s * rho (sh_id ms) + (1 - decay s) * Rsqr (eval rho sigma g) /\
     0 <= eval rho sigma (new_mean_squared_grad s ms g)) /\
  0 <= accumulator_after s ms g v0 steps /\
  0 <= accumulator_after s ms g 0 steps /\
  (forall p, Forall (fun x => 0 <= x) (data (ndarray_mul (get_value p) 0))) /\
  rms_grad_t s ms g
    = TMaximum (TSqrt (new_mean_squared_grad s ms g)) (TConst (epsilon s)).
Proof.
  intros s ms g v0 steps Hd Hv. repeat split.
  - now apply new_mean_squared_grad_nonneg.
  - now apply accumulator_after_nonneg.
  - apply accumulator_after_nonneg; [exact Hd | lra].
  - intro p. simpl.
    eapply Forall_impl; [|apply zeros_data]. simpl. intros x ->. lra.
Qed.

(* ------------------------------------------------------------------------- *)
(** ** The constructor's call of its base class *)

Lemma known_keywords_bind : forall supplied,
  (forall k, In k (od_keys supplied) ->
     In k ["config"; "defaults"; "n_epoch"; "batch_size";
           "minimum_batch_size"; "save_frequency"; "early_stop_threshold";
           "early_stop_length"; "learning_rate"; "lr_decay"; "lr_factor";
           "decay"; "max_scaling"]) ->
  unexpected_keyword supplied = None.
Proof.
  intros supplied. unfold unexpected_keyword.
  induction (od_keys supplied) as [|k l IH]; intro H; simpl; [reflexivity|].
  assert (Hk : negb (od_mem String.eqb init_signature k) = false).
  { specialize (H k (or_introl eq_refl)). simpl in H.
    repeat (destruct H as [<-|H]; [reflexivity|]). destruct H. }
  rewrite Hk. apply IH. intros k' Hk'. apply H. now right.
Qed.

(** C8, as the code has it. Called with keywords of its signature, the
    constructor calls the base-class constructor once, with [model] and
    [dataset] and with each of [n_epoch], [batch_size], [minimum_batch_size],
    [save_frequency], [early_stop_threshold], [early_stop_length],
    [learning_rate], [lr_decay], [lr_factor], [decay] and [max_scaling] under
    its own name at the value the caller supplied, [None] when the caller
    supplied none; the defaults [decay = 0.95] and [max_scaling = 1e5] are not
    put in their place but travel as the [defaults] argument, unless the
    caller supplies another. What the constructor returns is read off the base
    class's answer to that call. *)
Theorem C8_constructor_forwarding : forall base model dataset supplied,
  (forall k, In k (od_keys supplied) ->
     In k ["config"; "defaults"; "n_epoch"; "batch_size";
           "minimum_batch_size"; "save_frequency"; "early_stop_threshold";
           "early_stop_length"; "learning_rate"; "lr_decay"; "lr_factor";
           "decay"; "max_scaling"]) ->
  let given := fun (k : string) (default : pyval) =>
                 match od_get String.eqb supplied k with
                 | Some v => v
                 | None => default
                 end in
  RMSProp_init base model dataset supplied
  = match
      base
        {| sc_model := model;
           sc_dataset := dataset;
           sc_kwargs :=
             [("config", given "config" PyNone);
              ("defaults",
               given "defaults"
                 (PyDict [("decay", 95 / 100); ("max_scaling", 100000)]));
              ("n_epoch", given "n_epoch" PyNone);
              ("batch_size", given "batch_size" PyNone);
              ("minimum_batch_size", given "minimum_batch_size" PyNone);
              ("save_frequency", given "save_frequency" PyNone);
              ("early_stop_length", given "early_stop_length" PyNone);
              ("early_stop_threshold", given "early_stop_threshold" PyNone);
              ("learning_rate", given "learning_rate" PyNone);
              ("lr_decay", given "lr_decay" PyNone);
              ("lr_factor", given "lr_factor" PyNone);
              ("decay", given "decay" PyNone);
              ("max_scaling", given "max_scaling" PyNone)] |}
    with
    | inl e => inl e
    | inr a =>
        if Rlt_dec 0 (o_max_scaling a)
        then inr {| learning_rate := o_learning_rate a;
                    lr_scalers := o_lr_scalers a;
                    decay := o_decay a;
                    max_scaling := o_max_scaling a;
                    epsilon := 1 / o_max_scaling a;
                    mean_square_grads := [] |}
        else inl (AssertionError "Max_scaling needs to be > 0.")
    end.
Proof.
  intros base model dataset supplied Hknown given.
  unfold RMSProp_init, init_locals.
  rewrite (known_keywords_bind supplied Hknown).
  reflexivity.
Qed.

(* ------------------------------------------------------------------------- *)
(** ** The definitions at work on the small model *)

Lemma sample_named : all_named sample_grads.
Proof. intros p [<-|[<-|[]]]; discriminate. Qed.

Lemma sample_distinct : distinct_keys sample_grads.
Proof.
  unfold distinct_keys. simpl.
  repeat constructor; simpl; intuition discriminate.
Qed.

Lemma sample_allocated : allocated sample_grads (next_id sample_world).
Proof.
  intros p g [H|[H|[]]]; inversion H; subst; simpl; lia.
Qed.

Lemma sample_init :
  RMSProp_init sample_base (PyObject 0) (PyObject 1) [] = inr sample_opt.
Proof.
  unfold RMSProp_init, sample_base, sample_attrs. simpl.
  destruct (Rlt_dec 0 100000) as [_|H]; [reflexivity | exfalso; lra].
Qed.

(** A full run: two named parameters, allocator at 3. *)
Example get_updates_sample :
  get_updates sample_opt sample_grads sample_world
  = Normal
      {| self :=
           set_mean_square_grads sample_opt
             [("W", accumulator 3 sample_W); ("b", accumulator 4 sample_b)];
         grads := sample_grads;
         updates :=
           [(accumulator 3 sample_W,
             new_mean_squared_grad sample_opt (accumulator 3 sample_W)
               (TSym 0));
            (sample_W,
             TAdd (TShared sample_W)
               (delta_x_t sample_opt sample_W (accumulator 3 sample_W)
                  (TSym 0)));
            (accumulator 4 sample_b,
             new_mean_squared_grad sample_opt (accumulator 4 sample_b)
               (TSym 1));
            (sample_b,
             TAdd (TShared sample_b)
               (delta_x_t sample_opt sample_b (accumulator 4 sample_b)
                  (TSym 1)))];
         env := {| next_id := 5;
                   log := [(DEBUG, "Setting up RMSProp for optimizer...")] |}
      |}.
Proof. reflexivity. Qed.

(** An unnamed parameter in second place: the exception leaves the first
    parameter's accumulator stored. *)
Example get_updates_unnamed_second :
  get_updates sample_opt [(sample_W, TSym 0); (sample_anon, TSym 1)]
    sample_world
  = Raised (ValueError "Model parameters must be named.")
      {| self :=
           set_mean_square_grads sample_opt [("W", accumulator 3 sample_W)];
         grads := [(sample_W, TSym 0); (sample_anon, TSym 1)];
         updates :=
           [(accumulator 3 sample_W,
             new_mean_squared_grad sample_opt (accumulator 3 sample_W)
               (TSym 0));
            (sample_W,
             TAdd (TShared sample_W)
               (delta_x_t sample_opt sample_W (accumulator 3 sample_W)
                  (TSym 0)))];
         env := {| next_id := 5;
                   log := [(DEBUG, "Setting up RMSProp for optimizer...")] |}
      |}.
Proof. reflexivity. Qed.

(** A second call on the same optimizer: the stored accumulator is replaced
    and the warning is logged. *)
Example get_updates_twice :
  let once := frame_of (get_updates sample_opt [(sample_W, TSym 0)]
                          sample_world) in
  let twice := frame_of (get_updates (self once) [(sample_W, TSym 0)]
                           (env once)) in
  mean_square_grads (self once) = [("W", accumulator 3 sample_W)] /\
  mean_square_grads (self twice) = [("W", accumulator 4 sample_W)] /\
  log (env twice)
  = [(DEBUG, "Setting up RMSProp for optimizer...");
     (DEBUG, "Setting up RMSProp for optimizer...");
     (WARNING, warning_text "W")].
Proof. repeat split. Qed.


(** [C2_accumulator_update] on the small model: the entry of the accumulator
    of [W]. *)
Lemma C2_witness :
  exists f,
    get_updates sample_opt sample_grads sample_world = Normal f /\
    od_get same_var (updates f) (accumulator 3 sample_W)
    = Some
        (TAdd (TMul (TConst (95 / 100)) (TShared (accumulator 3 sample_W)))
              (TMul (TConst (1 - 95 / 100)) (TSqr (TSym 0)))).
Proof.
  destruct (C2_accumulator_update sample_opt sample_grads sample_world
              sample_named sample_distinct sample_allocated) as [f [Hrun H]].
  exists f. split; [exact Hrun|].
  exact (proj1 (H 0%nat sample_W (TSym 0) eq_refl)).
Defined.

(** [C4_updates_layout] on the small model: four entries, in this order, and
    the first of them with its value. *)
Lemma C4_witness :
  exists f,
    get_updates sample_opt sample_grads sample_world = Normal f /\
    List.length (updates f) = 4%nat /\
    od_keys (updates f)
    = [accumulator 3 sample_W; sample_W; accumulator 4 sample_b; sample_b] /\
    nth_error (updates f) 0
    = Some (accumulator 3 sample_W,
            TAdd (TMul (TConst (95 / 100)) (TShared (accumulator 3 sample_W)))
                 (TMul (TConst (1 - 95 / 100)) (TSqr (TSym 0)))).
Proof.
  destruct (C4_updates_layout sample_opt sample_grads sample_world
              sample_named sample_distinct sample_allocated)
    as [f [Hrun [Hupd [Hlen H]]]].
  exists f. split; [exact Hrun|]. split; [exact Hlen|]. split.
  - rewrite Hupd. reflexivity.
  - exact (proj1 (H 0%nat sample_W (TSym 0) eq_refl)).
Defined.

Lemma sample_decay_range : 0 <= decay sample_opt <= 1.
Proof. simpl. lra. Qed.

(** [C3_denominator_bound] on the optimizer built with [max_scaling = 1e5] and
    [decay = 0.95]: the denominator of the update of [b], at a zero
    accumulator and gradient 7. *)
Lemma C3_witness :
  0 < epsilon sample_opt /\
  exists f,
    get_updates sample_opt sample_grads sample_world = Normal f /\
    exists num den,
      od_get same_var (updates f) sample_b
      = Some (TAdd (TShared sample_b) (TDiv num den)) /\
      exists d,
        eval_num (fun _ => 0) (fun _ => 7) den = Some d /\
        1 / 100000 <= d /\
        1 / d <= 100000.
Proof.
  destruct (C3_denominator_bound sample_base (PyObject 0) (PyObject 1) []
              sample_opt sample_grads sample_world sample_init
              sample_decay_range sample_named sample_distinct
              sample_allocated) as [_ [_ [Heps [f [Hrun H]]]]].
  split; [exact Heps|]. exists f. split; [exact Hrun|].
  destruct (H 1%nat sample_b (TSym 1) eq_refl) as [num [den [Hp Hden]]].
  exists num, den. split; [exact Hp|].
  destruct (Hden (fun _ => 0) (fun _ => 7) 7) as [d [Hd [_ [Hle [_ Hinv]]]]].
  - simpl. lra.
  - reflexivity.
  - exists d. split; [exact Hd|]. split; [exact Hle | exact Hinv].
Defined.

Lemma sample_init_steep :
  RMSProp_init sample_base_steep (PyObject 0) (PyObject 1) []
  = inr sample_opt_steep.
Proof.
  unfold RMSProp_init, sample_base_steep. simpl.
  destruct (Rlt_dec 0 100000) as [_|H]; [reflexivity | exfalso; lra].
Qed.

(** The statement of C3 fails when [decay] lies outside [[0, 1]]: the
    constructor accepts [decay = 2] with [max_scaling = 1e5 > 0], and at the
    accumulator's initial value 0 and a gradient element 1 the radicand is
    [-1], so the denominator of the update of [W] is not a number, let alone
    one that is at least [epsilon]. *)
Lemma C3_counterexample :
  exists s f num den,
    RMSProp_init sample_base_steep (PyObject 0) (PyObject 1) [] = inr s /\
    0 < max_scaling s /\
    get_updates s [(sample_W, TSym 0)] sample_world = Normal f /\
    od_get same_var (updates f) sample_W
    = Some (TAdd (TShared sample_W) (TDiv num den)) /\
    eval_num (fun _ => 0) (fun _ => 1) den = None /\
    eval_num (fun _ => 0) (fun _ => 1) (TAdd (TShared sample_W) (TDiv num den))
    = None.
Proof.
  eexists sample_opt_steep, _, _, _.
  split; [exact sample_init_steep|].
  split; [simpl; lra|].
  split; [reflexivity|].
  split; [reflexivity|].
  assert (Hden : eval_num (fun _ => 0) (fun _ => 1)
                   (rms_grad_t sample_opt_steep (accumulator 3 sample_W)
                      (TSym 0)) = None).
  { apply (eval_num_rms_grad_t_negative _ _ _ _ _ 1); [reflexivity|].
    simpl. unfold Rsqr. lra. }
  split; [exact Hden|].
  change (eval_num (fun _ => 0) (fun _ => 1)
            (TAdd (TShared sample_W)
               (TDiv (TMul (TNeg (scaled_lr sample_opt_steep sample_W))
                           (TSym 0))
                     (rms_grad_t sample_opt_steep (accumulator 3 sample_W)
                        (TSym 0)))) = None).
  cbn [eval_num]. rewrite Hden. reflexivity.
Qed.

(** [C6_accumulator_nonnegative] with [decay = 0.95], from zero, through two
    steps with gradients 1 and -3. *)
Lemma C6_witness :
  0 <= accumulator_after sample_opt (accumulator 3 sample_W) (TSym 0) 0
         [(fun _ => 0, fun _ => 1); (fun _ => 0, fun _ => -3)].
Proof.
  refine (proj1 (proj2
            (C6_accumulator_nonnegative sample_opt (accumulator 3 sample_W)
               (TSym 0) 0 _ _ _))).
  - simpl. lra.
  - lra.
Defined.



(** [C8_constructor_forwarding] with two keywords supplied, on a base class
    that reads [decay] from its keyword. *)
Lemma C8_witness :
  exists s,
    RMSProp_init probe_decay (PyObject 0) (PyObject 1)
      [("n_epoch", PyInt 10); ("decay", PyFloat (9 / 10))] = inr s /\
    decay s = 9 / 10.
Proof.
  rewrite (C8_constructor_forwarding probe_decay (PyObject 0) (PyObject 1)
             [("n_epoch", PyInt 10); ("decay", PyFloat (9 / 10))]).
  - simpl. destruct (Rlt_dec 0 100000) as [_|H]; [|exfalso; lra].
    eexists. split; reflexivity.
  - simpl. intros k [<-|[<-|[]]]; simpl; tauto.
Defined.

(** The statement of C8 fails where it has the defaults used: with [decay] and
    [max_scaling] not supplied, the base-class constructor receives [None] for
    both, not 0.95 and 1e5 (which travel in [defaults]); a base class that
    reads [decay] from its keyword finds no float there. *)
Lemma C8_counterexample :
  (exists l,
     init_locals [] = inr l /\
     od_get String.eqb
       (sc_kwargs (RMSProp_super_call (PyObject 0) (PyObject 1) l)) "decay"
     = Some PyNone /\
     od_get String.eqb
       (sc_kwargs (RMSProp_super_call (PyObject 0) (PyObject 1) l))
       "max_scaling"
     = Some PyNone /\
     od_get String.eqb
       (sc_kwargs (RMSProp_super_call (PyObject 0) (PyObject 1) l)) "defaults"
     = Some (PyDict [("decay", 95 / 100); ("max_scaling", 100000)])) /\
  RMSProp_init probe_decay (PyObject 0) (PyObject 1) []
  = inl (TypeError "decay is not a float").
Proof.
  split; [eexists; repeat split | reflexivity].
Qed.

(* ------------------------------------------------------------------------- *)
(** ** Further properties of the dictionaries *)

Section ODictKeys.
Context {K V I : Type} (eqb : K -> K -> bool) (proj : K -> I).
Hypothesis eqb_proj : forall a b, eqb a b = true <-> proj a = proj b.

Lemma od_set_keys_in : forall (d : list (K * V)) k v x,
  In x (map (fun kv => proj (fst kv)) (od_set eqb d k v)) ->
  In x (map (fun kv => proj (fst kv)) d) \/ x = proj k.
Proof.
  induction d as [|[k' v'] r IH]; intros k v x Hin; simpl in *.
  - destruct Hin as [<-|[]]. now right.
  - destruct (eqb k' k) eqn:E; simpl in Hin.
    + left. exact Hin.
    + destruct Hin as [Hx|Hin]; [left; now left|].
      destruct (IH k v x Hin) as [H|H]; [left; now right | now right].
Qed.

Lemma od_set_keys_nodup : forall (d : list (K * V)) k v,
  NoDup (map (fun kv => proj (fst kv)) d) ->
  NoDup (map (fun kv => proj (fst kv)) (od_set eqb d k v)).
Proof.
  induction d as [|[k' v'] r IH]; intros k v Hnd; simpl.
  - constructor; [intros [] | constructor].
  - simpl in Hnd. inversion Hnd as [|x l Hx Hnd']; subst.
    destruct (eqb k' k) eqn:E; simpl.
    + constructor; assumption.
    + constructor; [|now apply IH].
      intro Hin. destruct (od_set_keys_in r k v _ Hin) as [H|H].
      * exact (Hx H).
      * apply eqb_proj in H. congruence.
Qed.

Lemma od_get_none_keys : forall (d : list (K * V)) k,
  od_get eqb d k = None ->
  ~ In (proj k) (map (fun kv => proj (fst kv)) d).
Proof.
  induction d as [|[k' v'] r IH]; intros k Hget; simpl in *; [tauto|].
  destruct (eqb k' k) eqn:E; [discriminate|].
  intros [H|H]; [|exact (IH k Hget H)].
  apply eqb_proj in H. congruence.
Qed.

Lemma od_mem_set : forall (d : list (K * V)) k v j,
  od_mem eqb d j = true -> od_mem eqb (od_set eqb d k v) j = true.
Proof.
  induction d as [|[k' v'] r IH]; intros k v j; unfold od_mem in *; simpl.
  - discriminate.
  - destruct (eqb k' k) eqn:E; simpl.
    + destruct (eqb k' j); auto.
    + destruct (eqb k' j); [auto | apply IH].
Qed.
End ODictKeys.

(* ------------------------------------------------------------------------- *)
(** ** Further properties of [get_updates] *)

Lemma loop_body_keys : forall p f,
  distinct_keys (updates f) ->
  distinct_keys (updates (frame_of (loop_body p f))).
Proof.
  intros p f Hnd. unfold loop_body. simpl.
  destruct (name p); [|exact Hnd].
  destruct (od_get same_var (grads f) p); [|exact Hnd].
  simpl. unfold distinct_keys.
  apply (od_set_keys_nodup same_var sh_id same_var_id).
  apply (od_set_keys_nodup same_var sh_id same_var_id).
  exact Hnd.
Qed.

Lemma loop_body_names : forall p f,
  NoDup (map fst (mean_square_grads (self f))) ->
  NoDup (map fst (mean_square_grads (self (frame_of (loop_body p f))))).
Proof.
  intros p f Hnd. unfold loop_body. simpl.
  destruct (name p) as [nm|]; [|exact Hnd].
  assert (H : forall acc,
             NoDup (map fst (od_set String.eqb (mean_square_grads (self f))
                               nm acc))).
  { intro acc.
    apply (od_set_keys_nodup String.eqb (fun x => x) string_eqb_id).
    exact Hnd. }
  destruct (od_get same_var (grads f) p); simpl; apply H.
Qed.

Lemma for_each_keys : forall keys f,
  distinct_keys (updates f) ->
  distinct_keys (updates (frame_of (for_each keys f))).
Proof.
  induction keys as [|p keys IH]; intros f Hnd; simpl; [exact Hnd|].
  pose proof (loop_body_keys p f Hnd) as Hb.
  destruct (loop_body p f) as [f1|e f1]; simpl in Hb; [now apply IH | exact Hb].
Qed.

Lemma for_each_names : forall keys f,
  NoDup (map fst (mean_square_grads (self f))) ->
  NoDup (map fst (mean_square_grads (self (frame_of (for_each keys f))))).
Proof.
  induction keys as [|p keys IH]; intros f Hnd; simpl; [exact Hnd|].
  pose proof (loop_body_names p f Hnd) as Hb.
  destruct (loop_body p f) as [f1|e f1]; simpl in Hb; [now apply IH | exact Hb].
Qed.

(** The representation stays a dictionary: whatever it is given, and whether
    it returns or raises, [get_updates] leaves [updates] without two entries
    for one variable, and [self.mean_square_grads] without two entries for one
    name if it had none before. *)
Lemma get_updates_keys_distinct : forall s gs w,
  distinct_keys (updates (frame_of (get_updates s gs w))) /\
  (NoDup (map fst (mean_square_grads s)) ->
   NoDup (map fst (mean_square_grads (self (frame_of (get_updates s gs w)))))).
Proof.
  intros s gs w. unfold get_updates. split.
  - apply for_each_keys. simpl. constructor.
  - intro Hnd. apply for_each_names. exact Hnd.
Qed.

Lemma loop_body_agree : forall p f f',
  agree f f' ->
  match loop_body p f, loop_body p f' with
  | Normal f1, Normal f1' => agree f1 f1'
  | Raised e f1, Raised e' f1' => e = e' /\ agree f1 f1'
  | _, _ => False
  end.
Proof.
  intros p [s gr u e] [s' gr' u' e'] (Hs & Hg & Hu & Hn).
  simpl in Hg, Hu, Hn, Hs. subst gr' u'.
  destruct s as [lr sc dc mx ep m], s' as [lr' sc' dc' mx' ep' m'].
  unfold same_settings in Hs. simpl in Hs.
  destruct Hs as (<- & <- & <- & <- & <-).
  destruct e as [n l], e' as [n' l']. simpl in Hn. subst n'.
  unfold loop_body. simpl.
  destruct (name p) as [nm|].
  - destruct (od_get same_var gr p) as [g|].
    + unfold agree, same_settings. simpl.
      rewrite !next_id_after_body. simpl. repeat split.
    + split; [reflexivity|].
      unfold agree, same_settings. simpl.
      rewrite !next_id_after_body. simpl. repeat split.
  - split; [reflexivity|].
    unfold agree, same_settings. simpl. repeat split.
Qed.

Lemma for_each_agree : forall keys f f',
  agree f f' ->
  match for_each keys f, for_each keys f' with
  | Normal f1, Normal f1' => agree f1 f1'
  | Raised e f1, Raised e' f1' => e = e' /\ agree f1 f1'
  | _, _ => False
  end.
Proof.
  induction keys as [|p keys IH]; intros f f' Ha; simpl; [exact Ha|].
  pose proof (loop_body_agree p f f' Ha) as Hb.
  destruct (loop_body p f) as [f1|e f1], (loop_body p f') as [f1'|e' f1'];
    try contradiction; [apply IH; exact Hb | exact Hb].
Qed.

(** X1. The mapping [get_updates] returns, and whether it returns at all, do
    not depend on what [self.mean_square_grads] holds nor on the log: stored
    accumulators of earlier calls are never read, each call starts its running
    averages afresh. *)
Theorem get_updates_ignores_stored : forall s m gs w l,
  let w' := {| next_id := next_id w; log := l |} in
  match get_updates s gs w, get_updates (set_mean_square_grads s m) gs w' with
  | Normal f, Normal f' => updates f = updates f'
  | Raised e f, Raised e' f' => e = e'
  | _, _ => False
  end.
Proof.
  intros s m gs w l w'. unfold get_updates.
  assert (Ha : agree (enter s gs w)
                 (enter (set_mean_square_grads s m) gs w')).
  { unfold agree, same_settings. simpl. repeat split. }
  pose proof (for_each_agree (od_keys gs) _ _ Ha) as H.
  destruct (for_each (od_keys gs) (enter s gs w)) as [f|e f],
           (for_each (od_keys gs) (enter (set_mean_square_grads s m) gs w'))
    as [f'|e' f']; try contradiction.
  - apply H.
  - apply H.
Qed.

Lemma loop_body_next_id : forall p f,
  next_id (env (frame_of (loop_body p f))) = S (next_id (env f)).
Proof.
  intros p f. unfold loop_body. simpl.
  destruct (name p); [destruct (od_get same_var (grads f) p)|]; simpl;
    try rewrite next_id_after_body; reflexivity.
Qed.

Lemma for_each_next_id_le : forall keys f,
  (next_id (env f) <= next_id (env (frame_of (for_each keys f)))
   <= next_id (env f) + List.length keys)%nat.
Proof.
  induction keys as [|p keys IH]; intro f; simpl; [lia|].
  pose proof (loop_body_next_id p f) as Hb.
  destruct (loop_body p f) as [f1|e f1]; simpl in Hb.
  - specialize (IH f1). lia.
  - simpl. lia.
Qed.

(** X2. [get_updates] creates one shared variable per parameter it visits, the
    unnamed one that stops it included (its value is read and its accumulator
    built before the name is looked at): [n] on a normal return from [n]
    parameters, [k + 1] when the first unnamed parameter has [k] before it,
    and never more than [n]. *)
Theorem get_updates_allocations : forall s gs w,
  (forall f, get_updates s gs w = Normal f ->
     next_id (env f) = (next_id w + List.length gs)%nat) /\
  (forall pre p g post,
     gs = pre ++ (p, g) :: post -> all_named pre -> name p = None ->
     next_id (env (frame_of (get_updates s gs w)))
     = (next_id w + List.length pre + 1)%nat) /\
  (next_id w <= next_id (env (frame_of (get_updates s gs w)))
   <= next_id w + List.length gs)%nat.
Proof.
  intros s gs w. split; [|split].
  - intros f Hf. unfold get_updates in Hf.
    rewrite (for_each_next_id _ _ _ Hf). simpl.
    unfold od_keys. rewrite length_map. reflexivity.
  - intros pre p g post -> Hnm Hpn.
    destruct (loop_reaches s w pre p g post Hnm) as [f1 [_ [Hgu [_ Hid]]]].
    rewrite Hgu. simpl. rewrite (loop_body_unnamed p f1 Hpn). simpl. lia.
  - pose proof (for_each_next_id_le (od_keys gs) (enter s gs w)) as H.
    simpl in H. unfold od_keys in H. rewrite length_map in H. exact H.
Qed.

Lemma names_of_in : forall gs q n,
  In q (od_keys gs) -> name q = Some n -> In n (names_of gs).
Proof.
  induction gs as [|[p g] gs IH]; intros q n Hq Hn; simpl in *; [tauto|].
  destruct Hq as [->|Hq].
  - rewrite Hn. now left.
  - destruct (name p); [right|]; eapply IH; eauto.
Qed.

Lemma names_of_app : forall a b, names_of (a ++ b) = names_of a ++ names_of b.
Proof.
  induction a as [|[p g] a IH]; intro b; simpl; [reflexivity|].
  destruct (name p); simpl; now rewrite IH.
Qed.

Lemma for_each_other_names : forall keys f n,
  (forall q, In q keys -> name q <> Some n) ->
  od_get String.eqb (mean_square_grads (self (frame_of (for_each keys f)))) n
  = od_get String.eqb (mean_square_grads (self f)) n.
Proof.
  induction keys as [|p keys IH]; intros f n Hn; simpl; [reflexivity|].
  assert (Hp : name p <> Some n) by (apply Hn; now left).
  assert (Hb : od_get String.eqb
                 (mean_square_grads (self (frame_of (loop_body p f)))) n
               = od_get String.eqb (mean_square_grads (self f)) n).
  { unfold loop_body. simpl.
    destruct (name p) as [m|]; [|reflexivity].
    assert (Hmn : m <> n) by congruence.
    destruct (od_get same_var (grads f) p); simpl;
      apply (od_get_set_other String.eqb (fun x => x) string_eqb_id);
      exact Hmn. }
  destruct (loop_body p f) as [f1|e f1]; simpl in Hb; [|exact Hb].
  rewrite IH; [exact Hb|]. intros q Hq. apply Hn. now right.
Qed.

(** X3. A name that no parameter of the gradient dictionary bears keeps in
    [self.mean_square_grads] exactly what it had (an accumulator or nothing),
    whether the call returns or raises. *)
Theorem get_updates_other_names : forall s gs w n,
  ~ In n (names_of gs) ->
  od_get String.eqb
    (mean_square_grads (self (frame_of (get_updates s gs w)))) n
  = od_get String.eqb (mean_square_grads s) n.
Proof.
  intros s gs w n Hn. unfold get_updates.
  rewrite for_each_other_names; [reflexivity|].
  intros q Hq Hqn. apply Hn. eapply names_of_in; eauto.
Qed.

Lemma all_named_normal : forall s gs w,
  all_named gs -> exists f, get_updates s gs w = Normal f.
Proof.
  intros s gs w Hnm.
  assert (Hout := for_each_outcome (od_keys gs) (enter s gs w)
                    (fun p Hp => od_get_key same_var sh_id same_var_id gs p Hp)).
  fold (get_updates s gs w) in Hout.
  destruct (get_updates s gs w) as [f|e f]; [eauto|].
  destruct Hout as [_ [p [Hp Hpn]]]. exfalso. exact (Hnm p Hp Hpn).
Qed.

Lemma all_named_app_l : forall a b, all_named (a ++ b) -> all_named a.
Proof.
  intros a b H p Hp. apply H. unfold od_keys in *. rewrite map_app.
  apply in_or_app. now left.
Qed.

(** What a name holds after a normal return. *)
Lemma stored_after_call : forall s w pre p g post n,
  all_named (pre ++ (p, g) :: post) ->
  name p = Some n ->
  ~ In n (names_of post) ->
  exists f,
    get_updates s (pre ++ (p, g) :: post) w = Normal f /\
    od_get String.eqb (mean_square_grads (self f)) n
    = Some (accumulator (next_id w + List.length pre) p).
Proof.
  intros s w pre p g post n Hnm Hpn Hpost.
  destruct (all_named_normal s _ w Hnm) as [f Hf].
  exists f. split; [exact Hf|].
  destruct (loop_reaches s w pre p g post (all_named_app_l _ _ Hnm))
    as [f1 [_ [Hgu [Hgr Hid]]]].
  destruct (od_get_key same_var sh_id same_var_id (grads f1) p) as [g' Hg'].
  { rewrite Hgr. unfold od_keys. rewrite map_app. apply in_or_app.
    right. now left. }
  assert (Hfr : f = frame_of (get_updates s (pre ++ (p, g) :: post) w))
    by (rewrite Hf; reflexivity).
  rewrite Hfr, Hgu. simpl.
  rewrite (loop_body_named p f1 n g' Hpn Hg'). cbv zeta.
  rewrite for_each_other_names.
  - simpl. rewrite Hid.
    apply (od_get_set_same String.eqb (fun x => x) string_eqb_id).
  - intros q Hq Hqn. apply Hpost. eapply names_of_in; eauto.
Qed.

Lemma all_named_cons : forall p g gs,
  all_named ((p, g) :: gs) -> (exists n, name p = Some n) /\ all_named gs.
Proof.
  intros p g gs H. split.
  - destruct (name p) as [n|] eqn:E; [eauto|].
    exfalso. apply (H p); [now left | exact E].
  - intros q Hq. apply H. now right.
Qed.

Lemma od_mem_false_get : forall (d : list (string * shared)) n,
  od_mem String.eqb d n = false -> od_get String.eqb d n = None.
Proof.
  intros d n. unfold od_mem.
  destruct (od_get String.eqb d n); [discriminate | reflexivity].
Qed.

(** Parameters whose names are all new and pairwise different. *)
Lemma for_each_new_names : forall gs f,
  all_named gs ->
  (forall p, In p (od_keys gs) ->
     exists g, od_get same_var (grads f) p = Some g) ->
  NoDup (names_of gs) ->
  (forall n, In n (names_of gs) ->
     od_mem String.eqb (mean_square_grads (self f)) n = false) ->
  exists f',
    for_each (od_keys gs) f = Normal f' /\
    mean_square_grads (self f')
    = mean_square_grads (self f) ++ fresh_entries (next_id (env f)) gs /\
    log (env f') = log (env f).
Proof.
  induction gs as [|[p g] gs IH]; intros f Hnm Hget Hnd Hnew.
  - exists f. simpl. rewrite app_nil_r. auto.
  - destruct (all_named_cons p g gs Hnm) as [[n Hn] Hnm'].
    destruct (Hget p (or_introl eq_refl)) as [g' Hg'].
    simpl in Hnd, Hnew. rewrite Hn in Hnd, Hnew.
    inversion Hnd as [|x l Hx Hnd']; subst.
    assert (Hfalse : od_mem String.eqb (mean_square_grads (self f)) n = false)
      by (apply Hnew; now left).
    simpl. rewrite (loop_body_named p f n g' Hn Hg'). cbv zeta.
    rewrite Hfalse. rewrite Hn.
    match goal with |- context [for_each _ ?F] => set (f1 := F) end.
    destruct (IH f1) as [f' [Hrun [Hmsg Hlog]]].
    + exact Hnm'.
    + intros q Hq. simpl. apply Hget. now right.
    + exact Hnd'.
    + intros m Hm. simpl. unfold od_mem.
      rewrite (od_get_set_other String.eqb (fun x => x) string_eqb_id).
      * apply Hnew. now right.
      * intro E. subst m. exact (Hx Hm).
    + exists f'. split; [exact Hrun|]. split; [|exact Hlog].
      rewrite Hmsg. simpl.
      rewrite (od_set_new String.eqb (fun x => x) string_eqb_id).
      * rewrite <- app_assoc. reflexivity.
      * apply (od_get_none_keys String.eqb (fun x => x) string_eqb_id).
        apply od_mem_false_get. exact Hfalse.
Qed.

(** X5. On a call where every parameter is named, no two parameters share a
    name and no name is stored yet (a first call on a new optimizer), no
    warning is logged: the log gains the debug record only, and
    [self.mean_square_grads] gains, after what it held, one entry per
    parameter in iteration order. *)
Theorem get_updates_first_call : forall s gs w,
  all_named gs ->
  NoDup (names_of gs) ->
  (forall n, In n (names_of gs) ->
     od_mem String.eqb (mean_square_grads s) n = false) ->
  exists f,
    get_updates s gs w = Normal f /\
    mean_square_grads (self f)
    = mean_square_grads s ++ fresh_entries (next_id w) gs /\
    log (env f) = log w ++ [(DEBUG, "Setting up RMSProp for optimizer...")].
Proof.
  intros s gs w Hnm Hnd Hnew. unfold get_updates.
  destruct (for_each_new_names gs (enter s gs w)) as [f [Hrun [Hm Hl]]];
    auto.
  - intros p Hp. simpl. apply (od_get_key same_var sh_id same_var_id gs p Hp).
  - exists f. auto.
Qed.

(** Parameters whose names are all stored already. *)
Lemma for_each_known_names : forall gs f,
  all_named gs ->
  (forall p, In p (od_keys gs) ->
     exists g, od_get same_var (grads f) p = Some g) ->
  (forall n, In n (names_of gs) ->
     od_mem String.eqb (mean_square_grads (self f)) n = true) ->
  exists f',
    for_each (od_keys gs) f = Normal f' /\
    log (env f') = log (env f) ++ warnings_for gs /\
    map fst (mean_square_grads (self f')) = map fst (mean_square_grads (self f)).
Proof.
  induction gs as [|[p g] gs IH]; intros f Hnm Hget Hold.
  - exists f. unfold warnings_for. simpl. rewrite app_nil_r. auto.
  - destruct (all_named_cons p g gs Hnm) as [[n Hn] Hnm'].
    destruct (Hget p (or_introl eq_refl)) as [g' Hg'].
    simpl in Hold. rewrite Hn in Hold.
    assert (Htrue : od_mem String.eqb (mean_square_grads (self f)) n = true)
      by (apply Hold; now left).
    simpl. rewrite (loop_body_named p f n g' Hn Hg'). cbv zeta.
    rewrite Htrue.
    match goal with |- context [for_each _ ?F] => set (f1 := F) end.
    destruct (IH f1) as [f' [Hrun [Hlog Hkeys]]].
    + exact Hnm'.
    + intros q Hq. simpl. apply Hget. now right.
    + intros m Hm. simpl.
      apply (od_mem_set String.eqb). apply Hold. now right.
    + exists f'. split; [exact Hrun|]. split.
      * rewrite Hlog. unfold warnings_for. simpl. rewrite Hn. simpl.
        rewrite <- app_assoc. reflexivity.
      * rewrite Hkeys. simpl. apply od_set_present_keys. exact Htrue.
Qed.

(** X6. On a call where every parameter is named and every name is stored
    already (a second call on the same parameters), the log gains the debug
    record and then one warning per parameter, in iteration order, and the
    names of [self.mean_square_grads] stay as they were, each in its place. *)
Theorem get_updates_repeat_call : forall s gs w,
  all_named gs ->
  (forall n, In n (names_of gs) ->
     od_mem String.eqb (mean_square_grads s) n = true) ->
  exists f,
    get_updates s gs w = Normal f /\
    log (env f)
    = log w ++ (DEBUG, "Setting up RMSProp for optimizer...")
              :: warnings_for gs /\
    map fst (mean_square_grads (self f)) = map fst (mean_square_grads s).
Proof.
  intros s gs w Hnm Hold. unfold get_updates.
  destruct (for_each_known_names gs (enter s gs w)) as [f [Hrun [Hl Hk]]];
    auto.
  - intros p Hp. simpl. apply (od_get_key same_var sh_id same_var_id gs p Hp).
  - exists f. split; [exact Hrun|]. split; [|exact Hk].
    rewrite Hl. simpl. rewrite <- app_assoc. reflexivity.
Qed.

Lemma loop_body_log_incl : forall p f x,
  In x (log (env f)) -> In x (log (env (frame_of (loop_body p f)))).
Proof.
  intros p f x Hx. unfold loop_body. simpl.
  assert (H : forall c l m,
             In x (log (if c : bool
                        then log_record l m
                               {| next_id := S (next_id (env f));
                                  log := log (env f) |}
                        else {| next_id := S (next_id (env f));
                                log := log (env f) |}))).
  { intros [] l m; simpl; [apply in_or_app; now left | exact Hx]. }
  destruct (name p); [destruct (od_get same_var (grads f) p)|]; simpl;
    try apply H; exact Hx.
Qed.

Lemma for_each_log_incl : forall keys f x,
  In x (log (env f)) -> In x (log (env (frame_of (for_each keys f)))).
Proof.
  induction keys as [|p keys IH]; intros f x Hx; simpl; [exact Hx|].
  pose proof (loop_body_log_incl p f x Hx) as Hb.
  destruct (loop_body p f) as [f1|e f1]; simpl in Hb; [now apply IH | exact Hb].
Qed.

(** X7. Two parameters of one gradient dictionary that bear the same name
    (every parameter before the second being named) make the call log the
    warning for that name, first call or not. *)
Theorem get_updates_same_name_warns : forall s w pre p g mid q h post n,
  all_named (pre ++ (p, g) :: mid) ->
  name p = Some n ->
  name q = Some n ->
  In (WARNING, warning_text n)
     (log (env (frame_of
        (get_updates s (pre ++ (p, g) :: mid ++ (q, h) :: post) w)))).
Proof.
  intros s w pre p g mid q h post n Hnm Hpn Hqn.
  replace (pre ++ (p, g) :: mid ++ (q, h) :: post)
    with ((pre ++ (p, g) :: mid) ++ (q, h) :: post)
    by (rewrite <- app_assoc; reflexivity).
  destruct (loop_reaches s w (pre ++ (p, g) :: mid) q h post Hnm)
    as [f1 [Hrun [Hgu [Hgr _]]]].
  destruct (od_get_key same_var sh_id same_var_id (grads f1) q) as [h' Hh'].
  { rewrite Hgr. unfold od_keys. rewrite map_app. apply in_or_app.
    right. now left. }
  assert (Hst : holds_fresh 0 (mean_square_grads (self f1)) n).
  { apply (for_each_stores _ _ _ 0%nat n Hrun); [lia|].
    right. exists p. split; [|exact Hpn].
    unfold od_keys. rewrite map_app. apply in_or_app. right. now left. }
  assert (Hmem : od_mem String.eqb (mean_square_grads (self f1)) n = true).
  { destruct Hst as [acc [Hacc _]]. unfold od_mem. now rewrite Hacc. }
  rewrite Hgu. simpl.
  rewrite (loop_body_named q f1 n h' Hqn Hh'). cbv zeta. rewrite Hmem.
  apply for_each_log_incl. simpl. apply in_or_app. right. now left.
Qed.

(* ------------------------------------------------------------------------- *)
(** ** Further properties of the update rule *)

Lemma eval_delta_x_t : forall s p ms g rho sigma,
  eval rho sigma (delta_x_t s p ms g)
  = - eval rho sigma (scaled_lr s p) * eval rho sigma g
    / eval rho sigma (rms_grad_t s ms g).
Proof. reflexivity. Qed.

(** The step is a number when the gradient and the learning rate are, the
    radicand is not negative and the floor is positive. *)
Lemma eval_num_delta_x_t : forall s p ms g rho sigma x l,
  0 < epsilon s ->
  eval_num rho sigma g = Some x ->
  eval_num rho sigma (learning_rate s) = Some l ->
  0 <= decay s * rho (sh_id ms) + (1 - decay s) * Rsqr x ->
  eval_num rho sigma (delta_x_t s p ms g)
  = Some (- (lr_scaler s p * l) * x
          / Rmax (sqrt (decay s * rho (sh_id ms) + (1 - decay s) * Rsqr x))
                 (epsilon s)).
Proof.
  intros s p ms g rho sigma x l He Hg Hl Hrad.
  unfold delta_x_t. cbn [eval_num].
  rewrite (eval_num_rms_grad_t s ms g rho sigma x Hg Hrad).
  unfold scaled_lr. cbn [eval_num]. rewrite Hl, Hg. simpl.
  match goal with |- context [Req_dec_T ?d 0] =>
    destruct (Req_dec_T d 0) as [E|_]; [|reflexivity]
  end.
  match type of E with Rmax ?a ?b = 0 => pose proof (Rmax_r a b) end. lra.
Qed.

(** X9. For an optimizer the constructor returned, where the radicand
    [decay * ms + (1 - decay) * g^2] is not negative and the gradient and the
    learning rate are numbers, the change of a parameter element is a number
    of size at most [max_scaling] times the plain gradient step:
    [|delta| <= |lr_scalers.get(p, 1) * learning_rate| * |g| * max_scaling]. *)
Theorem delta_bounded_by_max_scaling :
  forall base model dataset supplied s,
  RMSProp_init base model dataset supplied = inr s ->
  forall p ms g rho sigma x l,
    eval_num rho sigma g = Some x ->
    eval_num rho sigma (learning_rate s) = Some l ->
    0 <= decay s * rho (sh_id ms) + (1 - decay s) * Rsqr x ->
    exists v,
      eval_num rho sigma (delta_x_t s p ms g) = Some v /\
      Rabs v <= Rabs (lr_scaler s p * l) * Rabs x * max_scaling s.
Proof.
  intros base model dataset supplied s Hinit p ms g rho sigma x l Hg Hl Hrad.
  destruct (constructed _ _ _ _ _ Hinit) as [Hm [He Hep]].
  eexists. split; [apply eval_num_delta_x_t; eassumption|].
  set (d := Rmax (sqrt (decay s * rho (sh_id ms) + (1 - decay s) * Rsqr x))
                 (epsilon s)).
  assert (Hr : epsilon s <= d) by apply Rmax_r.
  assert (Hd : 0 < d) by lra.
  assert (Hinv : / d <= max_scaling s).
  { assert (H : 1 / d <= max_scaling s)
      by (apply inverse_bound; [exact Hm | rewrite <- He; exact Hr]).
    unfold Rdiv in H. lra. }
  set (a := lr_scaler s p * l).
  unfold Rdiv. rewrite !Rabs_mult, Rabs_Ropp.
  rewrite (Rabs_pos_eq (/ d))
    by (left; apply Rinv_0_lt_compat; exact Hd).
  apply Rmult_le_compat_l; [|exact Hinv].
  apply Rmult_le_pos; apply Rabs_pos.
Qed.

(** X10. For an optimizer the constructor returned and a nonnegative scaled
    learning rate, where the radicand is not negative and the gradient and
    the learning rate are numbers, a parameter element moves against the sign
    of its gradient ([delta * g <= 0]), and an element whose gradient is zero
    keeps its value. *)
Theorem delta_opposes_gradient :
  forall base model dataset supplied s,
  RMSProp_init base model dataset supplied = inr s ->
  forall p ms g rho sigma x l,
    eval_num rho sigma g = Some x ->
    eval_num rho sigma (learning_rate s) = Some l ->
    0 <= decay s * rho (sh_id ms) + (1 - decay s) * Rsqr x ->
    0 <= lr_scaler s p * l ->
    exists v,
      eval_num rho sigma (delta_x_t s p ms g) = Some v /\
      v * x <= 0 /\
      eval_num rho sigma (TAdd (TShared p) (delta_x_t s p ms g))
      = Some (rho (sh_id p) + v) /\
      (x = 0 -> v = 0).
Proof.
  intros base model dataset supplied s Hinit p ms g rho sigma x l
    Hg Hl Hrad Ha.
  destruct (constructed _ _ _ _ _ Hinit) as [_ [_ Hep]].
  pose proof (eval_num_delta_x_t s p ms g rho sigma x l Hep Hg Hl Hrad) as Hv.
  eexists. split; [exact Hv|].
  set (d := Rmax (sqrt (decay s * rho (sh_id ms) + (1 - decay s) * Rsqr x))
                 (epsilon s)) in *.
  assert (Hr : epsilon s <= d) by apply Rmax_r.
  assert (Hi : 0 < / d) by (apply Rinv_0_lt_compat; lra).
  split; [|split].
  - set (a := lr_scaler s p * l) in *.
    assert (Hai : 0 <= a * / d) by (apply Rmult_le_pos; lra).
    assert (Hx : 0 <= x * x) by (apply Rle_0_sqr).
    unfold Rdiv.
    replace (- a * x * / d * x) with (- ((a * / d) * (x * x))) by ring.
    pose proof (Rmult_le_pos _ _ Hai Hx). lra.
  - cbn [eval_num]. rewrite Hv. reflexivity.
  - intros ->. unfold Rdiv. ring.
Qed.

Lemma accumulator_step_eq : forall s ms g v st,
  accumulator_step s ms g v st
  = decay s * v
    + (1 - decay s)
      * Rsqr (eval (override (fst st) (sh_id ms) v) (snd st) g).
Proof.
  intros s ms g v st. unfold accumulator_step. simpl.
  rewrite override_same. reflexivity.
Qed.

(** X11. The running average stays under any bound on the squared gradients
    it is fed: for [decay] in [[0, 1]], if it starts at most [B] and at every
    training step of the run the squared gradient element is at most [B], it
    is at most [B] after the run. *)
Theorem accumulator_bounded : forall s ms g B v0 steps,
  0 <= decay s <= 1 ->
  v0 <= B ->
  squares_bounded s ms g B v0 steps ->
  accumulator_after s ms g v0 steps <= B.
Proof.
  intros s ms g B v0 steps Hd. revert v0. unfold accumulator_after.
  induction steps as [|st steps IH]; intros v0 Hv Hsq; simpl; [exact Hv|].
  simpl in Hsq. destruct Hsq as [Hq Hrest].
  apply IH; [|exact Hrest]. rewrite accumulator_step_eq.
  set (q := Rsqr (eval (override (fst st) (sh_id ms) v0) (snd st) g)) in *.
  destruct Hd as [Hd0 Hd1].
  assert (H1 : decay s * v0 <= decay s * B)
    by (apply Rmult_le_compat_l; assumption).
  assert (H2 : (1 - decay s) * q <= (1 - decay s) * B)
    by (apply Rmult_le_compat_l; lra).
  lra.
Qed.

(** X12. With [decay = 1] the accumulator never moves: after any run of
    training steps it holds the value it started with, whatever the
    gradients. *)
Theorem accumulator_frozen : forall s ms g v0 steps,
  decay s = 1 ->
  accumulator_after s ms g v0 steps = v0.
Proof.
  intros s ms g v0 steps Hd. revert v0. unfold accumulator_after.
  induction steps as [|st steps IH]; intro v0; simpl; [reflexivity|].
  rewrite IH, accumulator_step_eq, Hd. ring.
Qed.

(** X13. Where the floor [epsilon] is not reached, the first step from a zero
    accumulator has a size that does not depend on the size of the gradient:
    [|delta| = |scaled_lr| / sqrt(1 - decay)]. *)
Theorem first_step_size : forall s p ms g rho sigma,
  0 <= decay s < 1 ->
  0 < epsilon s ->
  rho (sh_id ms) = 0 ->
  epsilon s <= sqrt (1 - decay s) * Rabs (eval rho sigma g) ->
  Rabs (eval rho sigma (delta_x_t s p ms g))
  = Rabs (eval rho sigma (scaled_lr s p)) / sqrt (1 - decay s).
Proof.
  intros s p ms g rho sigma [Hd0 Hd1] He Hms Hfloor.
  rewrite eval_delta_x_t, eval_rms_grad_t.
  set (a := eval rho sigma (scaled_lr s p)).
  set (x := eval rho sigma g) in *.
  assert (Hc : 0 < sqrt (1 - decay s)) by (apply sqrt_lt_R0; lra).
  assert (Hsq : sqrt (eval rho sigma (new_mean_squared_grad s ms g))
                = sqrt (1 - decay s) * Rabs x).
  { simpl. rewrite Hms. fold x.
    replace (decay s * 0 + (1 - decay s) * Rsqr x)
      with ((1 - decay s) * Rsqr x) by ring.
    rewrite sqrt_mult; [|lra | apply Rle_0_sqr].
    rewrite sqrt_Rsqr_abs. reflexivity. }
  rewrite Hsq, Rmax_left by exact Hfloor.
  assert (Hx : 0 < Rabs x).
  { destruct (Rabs_pos x) as [H|H]; [exact H|].
    rewrite <- H in Hfloor. rewrite Rmult_0_r in Hfloor. lra. }
  unfold Rdiv. rewrite !Rabs_mult, Rabs_Ropp, Rabs_inv.
  rewrite !Rabs_mult, Rabs_Rabsolu.
  rewrite (Rabs_pos_eq (sqrt (1 - decay s))) by lra.
  field. split; lra.
Qed.

(** X14. For an optimizer the constructor returned, where the radicand is
    not negative, its root does not exceed the floor [epsilon], and the
    gradient and the learning rate are numbers, the change of a parameter
    element is the plain gradient step multiplied by [max_scaling]:
    [delta = -(lr_scalers.get(p, 1) * learning_rate) * g * max_scaling]. *)
Theorem floor_step : forall base model dataset supplied s,
  RMSProp_init base model dataset supplied = inr s ->
  forall p ms g rho sigma x l,
    eval_num rho sigma g = Some x ->
    eval_num rho sigma (learning_rate s) = Some l ->
    0 <= decay s * rho (sh_id ms) + (1 - decay s) * Rsqr x ->
    sqrt (decay s * rho (sh_id ms) + (1 - decay s) * Rsqr x) <= epsilon s ->
    eval_num rho sigma (delta_x_t s p ms g)
    = Some (- (lr_scaler s p * l) * x * max_scaling s).
Proof.
  intros base model dataset supplied s Hinit p ms g rho sigma x l
    Hg Hl Hrad Hfloor.
  destruct (constructed _ _ _ _ _ Hinit) as [Hm [He Hep]].
  rewrite (eval_num_delta_x_t s p ms g rho sigma x l Hep Hg Hl Hrad).
  rewrite Rmax_right by exact Hfloor.
  f_equal. rewrite He. field. lra.
Qed.

(** X4. After a normal return, [self.mean_square_grads] holds under each name
    the accumulator of the last parameter bearing it: the one created when the
    loop stood at that parameter's position. *)
Theorem get_updates_last_wins : forall s w pre p g post n,
  all_named (pre ++ (p, g) :: post) ->
  name p = Some n ->
  ~ In n (names_of post) ->
  exists f,
    get_updates s (pre ++ (p, g) :: post) w = Normal f /\
    od_get String.eqb (mean_square_grads (self f)) n
    = Some (accumulator (next_id w + List.length pre) p).
Proof.
  intros s w pre p g post n Hnm Hpn Hpost.
  destruct (stored_after_call s w pre p g post n Hnm Hpn Hpost) as [f [Hf H]].
  exists f. split; [exact Hf | exact H].
Qed.



(** X16. Two calls in a row on the same gradient dictionary: the second one
    puts under each name a newer variable than the one the first call stored
    and wrote its update rules for, so the rules of the first call no longer
    drive what [self.mean_square_grads] shows. *)
Theorem second_call_replaces : forall s w pre p g post n,
  all_named (pre ++ (p, g) :: post) ->
  name p = Some n ->
  ~ In n (names_of post) ->
  exists f1 f2 acc1 acc2,
    get_updates s (pre ++ (p, g) :: post) w = Normal f1 /\
    get_updates (self f1) (pre ++ (p, g) :: post) (env f1) = Normal f2 /\
    od_get String.eqb (mean_square_grads (self f1)) n = Some acc1 /\
    od_get String.eqb (mean_square_grads (self f2)) n = Some acc2 /\
    (sh_id acc1 < next_id (env f1) <= sh_id acc2)%nat.
Proof.
  intros s w pre p g post n Hnm Hpn Hpost.
  destruct (stored_after_call s w pre p g post n Hnm Hpn Hpost)
    as [f1 [Hf1 Hst1]].
  destruct (stored_after_call (self f1) (env f1) pre p g post n Hnm Hpn Hpost)
    as [f2 [Hf2 Hst2]].
  exists f1, f2, (accumulator (next_id w + List.length pre) p),
    (accumulator (next_id (env f1) + List.length pre) p).
  split; [exact Hf1|]. split; [exact Hf2|].
  split; [exact Hst1|]. split; [exact Hst2|].
  simpl. unfold get_updates in Hf1.
  rewrite (for_each_next_id _ _ _ Hf1). simpl.
  unfold od_keys. rewrite length_map, length_app. simpl. lia.
Qed.

(* ------------------------------------------------------------------------- *)
(** ** The further properties on the small model *)

Lemma sample_names : names_of sample_grads = ["W"; "b"].
Proof. reflexivity. Qed.

Lemma sample_names_distinct : NoDup (names_of sample_grads).
Proof.
  rewrite sample_names.
  repeat constructor; simpl; intuition discriminate.
Qed.

(** [get_updates_other_names]: the name [c] is not touched. *)
Lemma get_updates_other_names_witness :
  od_get String.eqb
    (mean_square_grads
       (self (frame_of (get_updates sample_opt_used sample_grads
                          sample_world_used)))) "c"
  = None.
Proof.
  refine (get_updates_other_names sample_opt_used sample_grads
            sample_world_used "c" _).
  rewrite sample_names. simpl. intuition discriminate.
Defined.

(** [get_updates_last_wins]: what [b] holds after the call. *)
Lemma get_updates_last_wins_witness :
  exists f,
    get_updates sample_opt sample_grads sample_world = Normal f /\
    od_get String.eqb (mean_square_grads (self f)) "b"
    = Some (accumulator 4 sample_b).
Proof.
  refine (get_updates_last_wins sample_opt sample_world
            [(sample_W, TSym 0)] sample_b (TSym 1) [] "b" _ _ _).
  - exact sample_named.
  - reflexivity.
  - simpl. tauto.
Defined.

(** [get_updates_first_call]: a first call on the new optimizer. *)
Lemma get_updates_first_call_witness :
  exists f,
    get_updates sample_opt sample_grads sample_world = Normal f /\
    mean_square_grads (self f)
    = [("W", accumulator 3 sample_W); ("b", accumulator 4 sample_b)] /\
    log (env f) = [(DEBUG, "Setting up RMSProp for optimizer...")].
Proof.
  refine (get_updates_first_call sample_opt sample_grads sample_world
            sample_named sample_names_distinct _).
  intros n _. reflexivity.
Defined.

(** [get_updates_repeat_call]: the second call on the same parameters. *)
Lemma get_updates_repeat_call_witness :
  exists f,
    get_updates sample_opt_used sample_grads sample_world_used = Normal f /\
    log (env f)
    = [(DEBUG, "Setting up RMSProp for optimizer...");
       (DEBUG, "Setting up RMSProp for optimizer...");
       (WARNING, warning_text "W"); (WARNING, warning_text "b")] /\
    map fst (mean_square_grads (self f)) = ["W"; "b"].
Proof.
  refine (get_updates_repeat_call sample_opt_used sample_grads
            sample_world_used sample_named _).
  rewrite sample_names. intros n [<-|[<-|[]]]; reflexivity.
Defined.

(** [get_updates_same_name_warns]: two variables named [W] in a first call. *)
Lemma get_updates_same_name_warns_witness :
  In (WARNING, warning_text "W")
     (log (env (frame_of
        (get_updates sample_opt
           [(sample_W, TSym 0); (sample_b, TSym 1); (sample_twin, TSym 2)]
           sample_world)))).
Proof.
  refine (get_updates_same_name_warns sample_opt sample_world
            [] sample_W (TSym 0) [(sample_b, TSym 1)] sample_twin (TSym 2)
            [] "W" _ _ _).
  - exact sample_named.
  - reflexivity.
  - reflexivity.
Defined.

(** [delta_bounded_by_max_scaling] on the optimizer built with
    [max_scaling = 1e5]: the step of [b] at a zero accumulator and
    gradient 7. *)
Lemma delta_bounded_by_max_scaling_witness :
  exists v,
    eval_num (fun _ => 0) (fun _ => 7)
      (delta_x_t sample_opt sample_b (accumulator 4 sample_b) (TSym 1))
    = Some v /\
    Rabs v
    <= Rabs (lr_scaler sample_opt sample_b * (1 / 1000)) * Rabs 7
       * max_scaling sample_opt.
Proof.
  refine (delta_bounded_by_max_scaling sample_base (PyObject 0) (PyObject 1)
            [] sample_opt sample_init sample_b (accumulator 4 sample_b)
            (TSym 1) (fun _ => 0) (fun _ => 7) 7 (1 / 1000)
            eq_refl eq_refl _).
  simpl. unfold Rsqr. lra.
Defined.

(** [delta_opposes_gradient]: [W] has no entry in [lr_scalers], its scaled
    learning rate is [1 * 0.001]; gradient -7. *)
Lemma delta_opposes_gradient_witness :
  exists v,
    eval_num (fun _ => 0) (fun _ => -7)
      (delta_x_t sample_opt sample_W (accumulator 3 sample_W) (TSym 0))
    = Some v /\
    v * -7 <= 0.
Proof.
  destruct (delta_opposes_gradient sample_base (PyObject 0) (PyObject 1)
              [] sample_opt sample_init sample_W (accumulator 3 sample_W)
              (TSym 0) (fun _ => 0) (fun _ => -7) (-7) (1 / 1000)
              eq_refl eq_refl) as [v [Hv [Hneg _]]].
  - simpl. unfold Rsqr. lra.
  - unfold lr_scaler. simpl. lra.
  - exists v. split; [exact Hv | exact Hneg].
Defined.

(** [accumulator_bounded]: gradients 3 and -2 read from an input, squares at
    most 9. *)
Lemma accumulator_bounded_witness :
  accumulator_after sample_opt (accumulator 3 sample_W) (TSym 0) 0
    [(fun _ => 0, fun _ => 3); (fun _ => 1, fun _ => -2)]
  <= 9.
Proof.
  refine (accumulator_bounded sample_opt (accumulator 3 sample_W) (TSym 0)
            9 0 _ _ _ _).
  - simpl. lra.
  - lra.
  - simpl. unfold Rsqr. repeat split; lra.
Defined.

(** [accumulator_frozen]: [decay = 1]. *)
Lemma accumulator_frozen_witness :
  accumulator_after sample_opt_frozen (accumulator 3 sample_W) (TSym 0) 4
    [(fun _ => 0, fun _ => 1); (fun _ => 0, fun _ => -3)]
  = 4.
Proof.
  exact (accumulator_frozen sample_opt_frozen (accumulator 3 sample_W)
           (TSym 0) 4 _ eq_refl).
Defined.

Lemma sample_floor_not_reached :
  epsilon sample_opt <= sqrt (1 - decay sample_opt) * Rabs 1.
Proof.
  simpl. rewrite Rabs_R1, Rmult_1_r.
  replace (1 / 100000) with (sqrt ((1 / 100000) * (1 / 100000)))
    by (apply sqrt_square; lra).
  apply sqrt_le_1_alt. lra.
Qed.

(** [first_step_size]: a first step with gradient 1, [decay = 0.95]. *)
Lemma first_step_size_witness :
  Rabs (eval (fun _ => 0) (fun _ => 1)
          (delta_x_t sample_opt sample_W (accumulator 3 sample_W) (TSym 0)))
  = Rabs (eval (fun _ => 0) (fun _ => 1) (scaled_lr sample_opt sample_W))
    / sqrt (1 - decay sample_opt).
Proof.
  refine (first_step_size sample_opt sample_W (accumulator 3 sample_W)
            (TSym 0) (fun _ => 0) (fun _ => 1) _ _ eq_refl
            sample_floor_not_reached).
  - simpl. lra.
  - simpl. lra.
Defined.

Lemma sample_floor_reached :
  sqrt (decay sample_opt * 0
        + (1 - decay sample_opt) * Rsqr (1 / 1000000))
  <= epsilon sample_opt.
Proof.
  simpl.
  replace (1 / 100000) with (sqrt ((1 / 100000) * (1 / 100000)))
    by (apply sqrt_square; lra).
  apply sqrt_le_1_alt. unfold Rsqr. lra.
Qed.

(** [floor_step]: the step of [b] at a zero accumulator and the small gradient
    [1e-6], under the floor. *)
Lemma floor_step_witness :
  eval_num (fun _ => 0) (fun _ => 1 / 1000000)
    (delta_x_t sample_opt sample_b (accumulator 4 sample_b) (TSym 1))
  = Some (- (lr_scaler sample_opt sample_b * (1 / 1000)) * (1 / 1000000)
          * max_scaling sample_opt).
Proof.
  refine (floor_step sample_base (PyObject 0) (PyObject 1) [] sample_opt
            sample_init sample_b (accumulator 4 sample_b) (TSym 1)
            (fun _ => 0) (fun _ => 1 / 1000000) (1 / 1000000) (1 / 1000)
            eq_refl eq_refl _ sample_floor_reached).
  simpl. unfold Rsqr. lra.
Defined.


(** [second_call_replaces] on the small model, at [W]. *)
Lemma second_call_replaces_witness :
  exists f1 f2 acc1 acc2,
    get_updates sample_opt sample_grads sample_world = Normal f1 /\
    get_updates (self f1) sample_grads (env f1) = Normal f2 /\
    od_get String.eqb (mean_square_grads (self f1)) "W" = Some acc1 /\
    od_get String.eqb (mean_square_grads (self f2)) "W" = Some acc2 /\
    (sh_id acc1 < next_id (env f1) <= sh_id acc2)%nat.
Proof.
  refine (second_call_replaces sample_opt sample_world
            [] sample_W (TSym 0) [(sample_b, TSym 1)] "W"
            sample_named eq_refl _).
  simpl. intuition discriminate.
Defined.

(* ------------------------------------------------------------------------- *)
(** ** What a call that raises leaves behind *)

Lemma for_each_new_names_any : forall gs f,
  (forall p, In p (od_keys gs) ->
     exists g, od_get same_var (grads f) p = Some g) ->
  NoDup (names_of gs) ->
  (forall n, In n (names_of gs) ->
     od_mem String.eqb (mean_square_grads (self f)) n = false) ->
  mean_square_grads (self (frame_of (for_each (od_keys gs) f)))
  = mean_square_grads (self f) ++ fresh_entries (next_id (env f)) gs.
Proof.
  induction gs as [|[p g] gs IH]; intros f Hget Hnd Hnew.
  - simpl. now rewrite app_nil_r.
  - simpl in Hnd, Hnew. simpl.
    destruct (name p) as [n|] eqn:Hn.
    + destruct (Hget p (or_introl eq_refl)) as [g' Hg'].
      inversion Hnd as [|x l Hx Hnd']; subst.
      assert (Hfalse :
                od_mem String.eqb (mean_square_grads (self f)) n = false)
        by (apply Hnew; now left).
      rewrite (loop_body_named p f n g' Hn Hg'). cbv zeta. rewrite Hfalse.
      match goal with |- context [for_each _ ?F] => set (f1 := F) end.
      rewrite (IH f1).
      * simpl.
        rewrite (od_set_new String.eqb (fun x => x) string_eqb_id).
        -- rewrite <- app_assoc. reflexivity.
        -- apply (od_get_none_keys String.eqb (fun x => x) string_eqb_id).
           apply od_mem_false_get. exact Hfalse.
      * intros q Hq. simpl. apply Hget. now right.
      * exact Hnd'.
      * intros m Hm. simpl. unfold od_mem.
        rewrite (od_get_set_other String.eqb (fun x => x) string_eqb_id).
        -- apply Hnew. now right.
        -- intro E. subst m. exact (Hx Hm).
    + rewrite (loop_body_unnamed p f Hn). simpl. now rewrite app_nil_r.
Qed.

(** X17. When the names met are new and pairwise different, a call leaves in
    [self.mean_square_grads], after what it held, one entry for each parameter
    before the first unnamed one, in iteration order, and nothing for the
    parameters after it: the exact state a raising call leaves behind; on a
    normal return this is one entry per parameter. *)
Theorem get_updates_stored_prefix : forall s gs w,
  NoDup (names_of gs) ->
  (forall n, In n (names_of gs) ->
     od_mem String.eqb (mean_square_grads s) n = false) ->
  mean_square_grads (self (frame_of (get_updates s gs w)))
  = mean_square_grads s ++ fresh_entries (next_id w) gs.
Proof.
  intros s gs w Hnd Hnew. unfold get_updates.
  rewrite for_each_new_names_any; auto.
  intros p Hp. simpl. apply (od_get_key same_var sh_id same_var_id gs p Hp).
Qed.

(** [get_updates_stored_prefix]: an unnamed variable between [W] and [b]. *)
Lemma get_updates_stored_prefix_witness :
  mean_square_grads
    (self (frame_of
       (get_updates sample_opt
          [(sample_W, TSym 0); (sample_anon, TSym 1); (sample_b, TSym 2)]
          sample_world)))
  = [("W", accumulator 3 sample_W)].
Proof.
  refine (get_updates_stored_prefix sample_opt
            [(sample_W, TSym 0); (sample_anon, TSym 1); (sample_b, TSym 2)]
            sample_world _ _).
  - simpl. repeat constructor; simpl; intuition discriminate.
  - intros n _. reflexivity.
Defined.
